(** * MoodMate: the journal data and analytics layer

    A shallow embedding of the TypeScript sources of the mood journal:
    - [types/journal-types.ts]            (module [JournalTypes]),
    - [services/journal-service.ts]       (module [JournalService]),
    - [app/page.tsx], the save handler    (module [HomePage]),
    - the store and its callers on a storage that may refuse a write
                                          (module [StorageQuota]),
    - [components/mood-trends.tsx]        (module [MoodTrends]),
    - [components/weather-correlation.tsx](module [WeatherCorrelation]),
    - [components/note-input.tsx]         (module [NoteInput]),
    - [hooks/use-theme.tsx]               (module [ThemeProvider]),
    - [app/settings/page.tsx]             (module [SettingsPage]),
    - [app/entries/page.tsx]              (module [EntriesPage]),
    - [app/trends/page.tsx]               (module [TrendsPage]),
    - [components/calendar-view.tsx]      (module [CalendarView]),
    followed by the properties of these functions.

    Conventions.  A JavaScript string is the list of its UTF-16 code
    units.  Integer-valued numbers (time values, temperatures, counts) are
    [Z] or [nat]; the percentages of the mood distribution and the rounded
    figures of the weather correlation are computed in binary64.  Readings
    of the clock ([Date.now()], [new Date()]) are explicit arguments.  A
    function that may throw returns a [Completion]. *)

From Stdlib Require Import ZArith NArith List String Ascii Lia.
From Stdlib Require Import Floats Uint63 Sorted Permutation.
From Stdlib Require Import DecimalString DecimalZ.
From stdpp Require Import base countable gmap.
From stdpp Require Import list.

(* ================================================================= *)
(** * JavaScript strings, numbers and completions *)

Module JS.

Abbreviation jsstring := (list N).

(** The code units of an ASCII literal of the source. *)
Definition lit (s : string) : jsstring :=
  map N_of_ascii (list_ascii_of_string s).
Arguments lit s%_string.

Definition QUOTE : N := 34.
Definition LF : N := 10.
Definition DEGREE : N := 176.

(** [WhiteSpace] and [LineTerminator] of ECMAScript, the code units
    that [String.prototype.trim] strips. *)
Definition isWhiteSpace (c : N) : bool :=
  existsb (N.eqb c)
    [9; 10; 11; 12; 13; 32; 160; 5760; 8232; 8233; 8239; 8287; 12288; 65279]%N
  || ((8192 <=? c)%N && (c <=? 8202)%N).

Fixpoint trimStart (s : jsstring) : jsstring :=
  match s with
  | c :: s' => if isWhiteSpace c then trimStart s' else s
  | [] => []
  end.

Definition trimEnd (s : jsstring) : jsstring := rev (trimStart (rev s)).

Definition trim (s : jsstring) : jsstring := trimEnd (trimStart s).

(** [s || d] on strings: the empty string is falsy. *)
Definition or_else (s d : jsstring) : jsstring :=
  match s with
  | [] => d
  | _ :: _ => s
  end.

(** [opt || d] where [opt] is a string or [undefined]. *)
Definition or_default (opt : option jsstring) (d : jsstring) : jsstring :=
  match opt with
  | None => d
  | Some s => or_else s d
  end.

(** [s.replace] with the global pattern matching one double quote and
    the replacement made of two: every double quote is doubled. *)
Definition doubleQuotes (s : jsstring) : jsstring :=
  flat_map (fun c => if (c =? QUOTE)%N then [QUOTE; QUOTE] else [c]) s.

(** [arr.join(sep)]. *)
Fixpoint join (sep : jsstring) (arr : list jsstring) : jsstring :=
  match arr with
  | [] => []
  | [s] => s
  | s :: rest => s ++ sep ++ join sep rest
  end.

(** [n.toString()] / template interpolation of an integer-valued
    number below 10^21 in absolute value (decimal digits, a leading minus
    sign when negative). *)
Definition Number_toString (z : Z) : jsstring :=
  lit (NilZero.string_of_int (Z.to_int z)).

(** Sign of a number returned by a comparator. *)
Definition signZ (z : Z) : comparison := (z ?= 0)%Z.

Inductive JsError :=
| SyntaxError
| TypeError
| Error (message : jsstring).

Inductive Completion (A : Type) :=
| Return (a : A)
| Throw (e : JsError).
Arguments Return {A} a.
Arguments Throw {A} e.

Definition bind {A B} (c : Completion A) (k : A -> Completion B) : Completion B :=
  match c with
  | Return a => k a
  | Throw e => Throw e
  end.

(** [try { body } catch (error) { handler }]. *)
Definition try_catch {A} (body : Completion A) (handler : JsError -> Completion A)
  : Completion A :=
  match body with
  | Return a => Return a
  | Throw e => handler e
  end.

(** ** [Array.prototype.sort]

    The comparator's sign is [Lt] when its first argument goes first.
    The sort is stable (ECMAScript 2019); for a consistent comparator the
    result is the one computed here by stable insertion. *)
Section ArraySort.
Context {A : Type} (compareFn : A -> A -> comparison).

Fixpoint insert (x : A) (sorted : list A) : list A :=
  match sorted with
  | [] => [x]
  | y :: rest =>
      match compareFn x y with
      | Gt => y :: insert x rest
      | _ => x :: sorted
      end
  end.

Definition Array_sort (arr : list A) : list A := foldr insert [] arr.
End ArraySort.

(** ** Double-precision numbers

    JavaScript numbers are IEEE-754 binary64 values, which are Rocq's
    primitive floats.  Integers below 2^53 in absolute value convert
    exactly. *)
Definition Number_of_Z (z : Z) : float :=
  if (0 <=? z)%Z then PrimFloat.of_uint63 (Uint63.of_Z z)
  else PrimFloat.opp (PrimFloat.of_uint63 (Uint63.of_Z (- z))).

Definition Number_of_nat (n : nat) : float := Number_of_Z (Z.of_nat n).

(** [Math.round]: the nearest integer, a tie going towards +infinity.
    Computed exactly from the sign, mantissa and exponent of the
    argument; NaN and the infinities are returned unchanged. *)
Definition Math_round (x : float) : float :=
  match Prim2SF x with
  | S754_finite s m e =>
      if (0 <=? e)%Z then x
      else
        let num := if s then Z.neg m else Z.pos m in
        let d := (2 ^ (- e))%Z in
        let r := ((2 * num + d) / (2 * d))%Z in
        if (r =? 0)%Z then (if s then PrimFloat.neg_zero else PrimFloat.zero)
        else Number_of_Z r
  | _ => x
  end.

(** The sign of a double that a comparator returns: negative, positive,
    or neither (zero and NaN). *)
Definition signF (v : float) : comparison :=
  if PrimFloat.ltb v 0 then Lt else if PrimFloat.ltb 0 v then Gt else Eq.

End JS.
Import JS.

(* ================================================================= *)
(** * types/journal-types.ts *)

Module JournalTypes.

Inductive Mood := happy | neutral | sad | angry | sick.

(** A mood is the string of its name. *)
Definition Mood_string (m : Mood) : jsstring :=
  match m with
  | happy => lit "happy"
  | neutral => lit "neutral"
  | sad => lit "sad"
  | angry => lit "angry"
  | sick => lit "sick"
  end.

Record Weather := mkWeather {
  temp : Z;
  condition : jsstring;
  icon : jsstring;
  location : option jsstring
}.

Record JournalEntry := mkJournalEntry {
  id : jsstring;
  date : jsstring;
  mood : Mood;
  note : jsstring;
  weather : Weather;
  timestamp : Z
}.

Inductive TimeRange := week | month | all.

Inductive ExportFormat := csv | json.

#[global] Instance Mood_eq_dec : EqDecision Mood.
Proof. solve_decision. Defined.

Definition Mood_index (m : Mood) : nat :=
  match m with
  | happy => 0 | neutral => 1 | sad => 2 | angry => 3 | sick => 4
  end.

Definition Mood_of_index (n : nat) : Mood :=
  match n with
  | 0 => happy | 1 => neutral | 2 => sad | 3 => angry | _ => sick
  end.

#[global] Instance Mood_countable : Countable Mood.
Proof.
  refine (inj_countable' Mood_index Mood_of_index _).
  intros []; reflexivity.
Defined.

End JournalTypes.
Import JournalTypes.

(* ================================================================= *)
(** * services/journal-service.ts *)

Module JournalService.

(** The text held under [STORAGE_KEY].  [JSON.stringify] of an entry
    array followed by [JSON.parse] gives the array back, so such a text
    is kept as the array it encodes; [Blank] is the empty string and
    [Malformed] any other text that is not the JSON of an entry array. *)
Inductive StoredText :=
| Blank
| Malformed
| Json (entries : list JournalEntry).

(** [localStorage.getItem(STORAGE_KEY)]: [None] when the key is absent. *)
Abbreviation localStorage := (option StoredText).

Definition JSON_parse (text : StoredText) : Completion (list JournalEntry) :=
  match text with
  | Json entries => Return entries
  | Blank | Malformed => Throw SyntaxError
  end.

Definition JSON_stringify (entries : list JournalEntry) : StoredText :=
  Json entries.

Definition newestFirst (a b : JournalEntry) : comparison :=
  signZ (timestamp b - timestamp a).

Definition getJournalEntries (store : localStorage) : Completion (list JournalEntry) :=
  try_catch
    (match store with
     | None | Some Blank => Return []
     | Some entriesJson =>
         bind (JSON_parse entriesJson) (fun entries =>
         Return (Array_sort newestFirst entries))
     end)
    (fun _ => Return []).

Record EntryData := mkEntryData {
  ed_date : Z;          (* the time value of the [Date] *)
  ed_mood : Mood;
  ed_note : jsstring;
  ed_weather : Weather
}.

Definition msInDay : Z := 86400000.

(** [now] is the reading of [Date.now()].  The [console.log] calls are
    left out; they print the cutoff and the timestamps as ISO dates, which
    is defined for the time values of valid dates, as [Date.now()] and
    [getTime()] give them. *)
Definition filterEntriesByTimeRange (now : Z)
    (entries : list JournalEntry) (range : TimeRange) : list JournalEntry :=
  match range with
  | all => entries
  | week =>
      let cutoffTime := (now - 7 * msInDay)%Z in
      filter (fun entry => (cutoffTime <= timestamp entry)%Z) entries
  | month =>
      let cutoffTime := (now - 30 * msInDay)%Z in
      filter (fun entry => (cutoffTime <= timestamp entry)%Z) entries
  end.

Definition headers : jsstring :=
  lit "Date,Mood,Note,Temperature,Weather Condition,Location" ++ [LF].

Definition quoted (s : jsstring) : jsstring := [QUOTE] ++ s ++ [QUOTE].

(** The six fields of a CSV row, as the template literal fills them. *)
Definition csvFields (entry : JournalEntry) : list jsstring :=
  [ date entry;
    Mood_string (mood entry);
    doubleQuotes (note entry);
    Number_toString (temp (weather entry)) ++ [DEGREE] ++ lit "C";
    condition (weather entry);
    or_default (location (weather entry)) (lit "Unknown") ].

Definition csvRow (entry : JournalEntry) : jsstring :=
  join (lit ",") (map quoted (csvFields entry)).

Record Download := mkDownload {
  fileName : jsstring;
  mimeType : jsstring;
  dataStr : jsstring
}.

Section WithLibraries.
(** [date-fns] formatting of a time value with the pattern
    [MMMM d, yyyy] in the local time zone, and the pretty printer
    [JSON.stringify(entries, null, 2)]. *)
Variable dateFormat_long : Z -> jsstring.
Variable JSON_stringify_pretty : list JournalEntry -> jsstring.

(** [now] is the reading of [Date.now()].  The write to storage is
    taken to succeed. *)
Definition saveJournalEntry (now : Z) (entryData : EntryData)
    (store : localStorage) : Completion JournalEntry * localStorage :=
  let newEntry :=
    {| id := Number_toString now;
       date := dateFormat_long (ed_date entryData);
       mood := ed_mood entryData;
       note := ed_note entryData;
       weather := ed_weather entryData;
       timestamp := ed_date entryData |} in
  match getJournalEntries store with
  | Return existingEntries =>
      let updatedEntries := newEntry :: existingEntries in
      (Return newEntry, Some (JSON_stringify updatedEntries))
  | Throw error => (Throw error, store)
  end.

(** [currentDate] is [new Date()] formatted as [yyyy-MM-dd].  The
    result is the file handed to the browser for download; the
    function itself returns its [fileName]. *)
Definition exportJournalEntries (currentDate : jsstring)
    (entries : list JournalEntry) (format : ExportFormat) : Completion Download :=
  if (length entries =? 0)%nat then Throw (Error (lit "No entries to export"))
  else
    match format with
    | csv =>
        let csvRows := map csvRow entries in
        Return {| dataStr := headers ++ join [LF] csvRows;
                  fileName := lit "moodmate-journal-" ++ currentDate ++ lit ".csv";
                  mimeType := lit "text/csv" |}
    | json =>
        Return {| dataStr := JSON_stringify_pretty entries;
                  fileName := lit "moodmate-journal-" ++ currentDate ++ lit ".json";
                  mimeType := lit "application/json" |}
    end.

Definition sampleWeather (t : Z) (cond ic : string) : Weather :=
  {| temp := t; condition := lit cond; icon := lit ic;
     location := Some (lit "Sample City") |}.

(** [now] and [today] are the two [new Date()] readings; [stamp i] is
    the reading of [Date.now()] inside the i-th save of the loop. *)
Definition sampleEntries (now today : Z) : list EntryData :=
  [ mkEntryData today happy (lit "Feeling great today!")
      (sampleWeather 25 "Clear" "01d");
    mkEntryData (now - 2 * msInDay) neutral (lit "Just an ordinary day")
      (sampleWeather 22 "Clouds" "02d");
    mkEntryData (now - 5 * msInDay) sad (lit "Not feeling my best")
      (sampleWeather 18 "Rain" "10d");
    mkEntryData (now - 10 * msInDay) angry (lit "Frustrated with work")
      (sampleWeather 27 "Clear" "01d");
    mkEntryData (now - 20 * msInDay) happy (lit "Had a great weekend!")
      (sampleWeather 24 "Clouds" "02d");
    mkEntryData (now - 40 * msInDay) sick (lit "Caught a cold")
      (sampleWeather 15 "Rain" "10d") ].

Fixpoint saveAll (stamp : nat -> Z) (i : nat) (samples : list EntryData)
    (store : localStorage) : Completion unit * localStorage :=
  match samples with
  | [] => (Return tt, store)
  | entry :: rest =>
      match saveJournalEntry (stamp i) entry store with
      | (Return _, store') => saveAll stamp (S i) rest store'
      | (Throw error, store') => (Throw error, store')
      end
  end.

Definition addSampleEntries (now today : Z) (stamp : nat -> Z)
    (store : localStorage) : Completion unit * localStorage :=
  saveAll stamp 0 (sampleEntries now today) store.

End WithLibraries.

End JournalService.
Import JournalService.

(* ================================================================= *)
(** * app/page.tsx: the save handler *)

Module HomePage.

(** The state of the page that [handleSaveEntry] reads and writes. *)
Record PageState := mkPageState {
  selectedDate : Z;
  selectedMood : option Mood;
  note : jsstring;
  weather : option Weather;
  entries : list JournalEntry
}.

Inductive Toast :=
| PleaseSelectMood
| WeatherNotAvailable
| EntrySaved
| ErrorSaving.

(** The template literal [Feeling ${selectedMood} today]. *)
Definition defaultNote (m : Mood) : jsstring :=
  lit "Feeling " ++ Mood_string m ++ lit " today".

Definition handleSaveEntry (dateFormat_long : Z -> jsstring) (now : Z)
    (page : PageState) (store : localStorage) : PageState * localStorage * Toast :=
  match selectedMood page with
  | None => (page, store, PleaseSelectMood)
  | Some mood =>
      match weather page with
      | None => (page, store, WeatherNotAvailable)
      | Some w =>
          match saveJournalEntry dateFormat_long now
                  {| ed_date := selectedDate page;
                     ed_mood := mood;
                     ed_note := or_else (trim (note page)) (defaultNote mood);
                     ed_weather := w |} store with
          | (Return newEntry, store') =>
              ({| selectedDate := selectedDate page;
                  selectedMood := None;
                  note := [];
                  weather := weather page;
                  entries := newEntry :: entries page |}, store', EntrySaved)
          | (Throw _, store') => (page, store', ErrorSaving)
          end
      end
  end.

End HomePage.

(* ================================================================= *)
(** * The journal store on a storage that may refuse a write

    [localStorage.setItem] throws (a [QuotaExceededError]) when the
    browser refuses the text; [saveJournalEntry] logs the error and throws
    it again, and its callers show their error toast.  The functions of
    this part take the outcome of each write: [None] when the storage
    accepts the text, the error that it throws otherwise.  On a storage
    that accepts the writes they are the functions above. *)

Module StorageQuota.

Definition setItem (refused : option JsError) (text : StoredText)
    (store : localStorage) : Completion unit * localStorage :=
  match refused with
  | None => (Return tt, Some text)
  | Some error => (Throw error, store)
  end.

Section WithLibraries.
Variable dateFormat_long : Z -> jsstring.

(** services/journal-service.ts, [saveJournalEntry]. *)
Definition saveJournalEntry (refused : option JsError) (now : Z)
    (entryData : EntryData) (store : localStorage)
  : Completion JournalEntry * localStorage :=
  let newEntry :=
    {| id := Number_toString now;
       date := dateFormat_long (ed_date entryData);
       mood := ed_mood entryData;
       note := ed_note entryData;
       weather := ed_weather entryData;
       timestamp := ed_date entryData |} in
  match getJournalEntries store with
  | Return existingEntries =>
      let updatedEntries := newEntry :: existingEntries in
      match setItem refused (JSON_stringify updatedEntries) store with
      | (Return _, store') => (Return newEntry, store')
      | (Throw error, store') => (Throw error, store')
      end
  | Throw error => (Throw error, store)
  end.

(** The loop of [addSampleEntries]; [refused i] is the outcome of the
    write of the i-th save. *)
Fixpoint saveAll (refused : nat -> option JsError) (stamp : nat -> Z) (i : nat)
    (samples : list EntryData) (store : localStorage)
  : Completion unit * localStorage :=
  match samples with
  | [] => (Return tt, store)
  | entry :: rest =>
      match saveJournalEntry (refused i) (stamp i) entry store with
      | (Return _, store') => saveAll refused stamp (S i) rest store'
      | (Throw error, store') => (Throw error, store')
      end
  end.

Definition addSampleEntries (now today : Z) (refused : nat -> option JsError)
    (stamp : nat -> Z) (store : localStorage) : Completion unit * localStorage :=
  saveAll refused stamp 0 (sampleEntries now today) store.

(** app/page.tsx, [handleSaveEntry]. *)
Definition handleSaveEntry (refused : option JsError) (now : Z)
    (page : HomePage.PageState) (store : localStorage)
  : HomePage.PageState * localStorage * HomePage.Toast :=
  match HomePage.selectedMood page with
  | None => (page, store, HomePage.PleaseSelectMood)
  | Some mood =>
      match HomePage.weather page with
      | None => (page, store, HomePage.WeatherNotAvailable)
      | Some w =>
          match saveJournalEntry refused now
                  {| ed_date := HomePage.selectedDate page;
                     ed_mood := mood;
                     ed_note :=
                       or_else (trim (HomePage.note page)) (HomePage.defaultNote mood);
                     ed_weather := w |} store with
          | (Return newEntry, store') =>
              ({| HomePage.selectedDate := HomePage.selectedDate page;
                  HomePage.selectedMood := None;
                  HomePage.note := [];
                  HomePage.weather := HomePage.weather page;
                  HomePage.entries := newEntry :: HomePage.entries page |},
               store', HomePage.EntrySaved)
          | (Throw _, store') => (page, store', HomePage.ErrorSaving)
          end
      end
  end.

End WithLibraries.

End StorageQuota.

(* ================================================================= *)
(** * components/mood-trends.tsx *)

Module MoodTrends.

Definition getMoodLabel (m : Mood) : jsstring :=
  match m with
  | happy => lit "Happy"
  | neutral => lit "Neutral"
  | sad => lit "Sad"
  | angry => lit "Angry"
  | sick => lit "Sick"
  end.

(** A row of [moodStats] (the emoji and the CSS class, which depend on
    the mood alone, are left out).  The percentage is a double, computed
    operation by operation as the program does. *)
Record MoodStat := mkMoodStat {
  mood : Mood;
  count : nat;
  percentage : float;
  label : jsstring
}.

Definition allMoods : list Mood := [happy; neutral; sad; angry; sick].

(** The [reduce] that fills the [counts] object. *)
Definition countMoods (entries : list JournalEntry) : gmap Mood nat :=
  fold_left
    (fun acc entry =>
       <[JournalTypes.mood entry := default 0 (acc !! JournalTypes.mood entry) + 1]> acc)
    entries ∅.

Definition byPercentage (a b : MoodStat) : comparison :=
  signF (PrimFloat.sub (percentage b) (percentage a)).

(** [(count / totalEntries) * 100], in doubles. *)
Definition percentOf (count totalEntries : nat) : float :=
  PrimFloat.mul
    (PrimFloat.div (Number_of_nat count) (Number_of_nat totalEntries))
    (Number_of_Z 100).

Definition statOf (counts : gmap Mood nat) (totalEntries : nat) (m : Mood) : MoodStat :=
  let count := default 0 (counts !! m) in
  let percentage :=
    if (0 <? totalEntries)%nat then percentOf count totalEntries
    else Number_of_Z 0 in
  {| mood := m; count := count; percentage := percentage; label := getMoodLabel m |}.

Definition moodStats (entries : list JournalEntry) : list MoodStat :=
  let counts := countMoods entries in
  let totalEntries := length entries in
  Array_sort byPercentage (map (statOf counts totalEntries) allMoods).

End MoodTrends.

(* ================================================================= *)
(** * components/weather-correlation.tsx *)

Module WeatherCorrelation.

(** The property names that the object literal [{}] inherits from
    [Object.prototype]; reading one of them from [weatherGroups] gives a
    truthy value that has no [push]. *)
Definition Object_prototype_keys : list jsstring :=
  [ lit "constructor"; lit "__defineGetter__"; lit "__defineSetter__";
    lit "hasOwnProperty"; lit "__lookupGetter__"; lit "__lookupSetter__";
    lit "isPrototypeOf"; lit "propertyIsEnumerable"; lit "toString";
    lit "valueOf"; lit "__proto__"; lit "toLocaleString" ].

(** [weatherGroups]: the own properties in creation order. *)
Abbreviation Groups := (list (jsstring * list JournalEntry)).

Definition hasOwn (groups : Groups) (key : jsstring) : bool :=
  existsb (fun g => bool_decide (fst g = key)) groups.

(** [weatherGroups[key].push(entry)] for an own property [key]. *)
Fixpoint push (key : jsstring) (entry : JournalEntry) (groups : Groups) : Groups :=
  match groups with
  | [] => []
  | (k, conditionEntries) :: rest =>
      if bool_decide (k = key) then (k, conditionEntries ++ [entry]) :: rest
      else (k, conditionEntries) :: push key entry rest
  end.

(** The body of the first [forEach]. *)
Definition addEntry (groups : Groups) (entry : JournalEntry) : Completion Groups :=
  let condition := condition (weather entry) in
  if hasOwn groups condition then Return (push condition entry groups)
  else if bool_decide (condition ∈ Object_prototype_keys) then Throw TypeError
  else Return (push condition entry (groups ++ [(condition, [])])).

Definition groupByCondition (entries : list JournalEntry) : Completion Groups :=
  fold_left (fun acc entry => bind acc (fun groups => addEntry groups entry))
    entries (Return []).

(** A key is an array index when it is the canonical decimal numeral of
    an integer below 2^32 - 1. *)
Definition isDigit (c : N) : bool := ((48 <=? c) && (c <=? 57))%N.

Definition arrayIndex (key : jsstring) : option N :=
  match key with
  | [] => None
  | [c] => if isDigit c then Some (c - 48)%N else None
  | c :: _ =>
      if ((49 <=? c) && (c <=? 57))%N && forallb isDigit key
      then
        let v := fold_left (fun acc d => (10 * acc + (d - 48))%N) key 0%N in
        if (v <=? 4294967294)%N then Some v else None
      else None
  end.

Definition isArrayIndex (key : jsstring) : bool :=
  match arrayIndex key with Some _ => true | None => false end.

Definition byIndex (a b : jsstring * list JournalEntry) : comparison :=
  (default 0%N (arrayIndex (fst a)) ?= default 0%N (arrayIndex (fst b)))%N.

(** [Object.entries]: array-index keys in ascending numeric order, then
    the other keys in creation order. *)
Definition Object_entries (groups : Groups) : Groups :=
  Array_sort byIndex (List.filter (fun g => isArrayIndex (fst g)) groups)
  ++ List.filter (fun g => negb (isArrayIndex (fst g))) groups.

(** [moodCounts], its properties in the order of the object literal. *)
Abbreviation MoodCounts := (list (Mood * nat)).

Definition noCounts : MoodCounts :=
  [(happy, 0); (neutral, 0); (sad, 0); (angry, 0); (sick, 0)].

(** [moodCounts[m]++]. *)
Definition increment (m : Mood) (moodCounts : MoodCounts) : MoodCounts :=
  map (fun mc => if bool_decide (fst mc = m) then (fst mc, S (snd mc)) else mc)
    moodCounts.

Definition countMoods (conditionEntries : list JournalEntry) : MoodCounts :=
  fold_left (fun moodCounts entry => increment (mood entry) moodCounts)
    conditionEntries noCounts.

(** The loop that finds the dominant mood; the state is
    [(dominantMood, highestCount)]. *)
Definition dominant (moodCounts : MoodCounts) : Mood * nat :=
  fold_left
    (fun state mc =>
       if (snd state <? snd mc)%nat then (fst mc, snd mc) else state)
    moodCounts (neutral, 0).

(** A row of the correlation.  [Math.round] turns the rounding error of
    a double into a whole unit, so the two rounded fields are computed in
    doubles, operation by operation as the program does. *)
Record Correlation := mkCorrelation {
  condition : jsstring;
  totalEntries : nat;
  dominantMood : Mood;
  dominantPercentage : float;
  averageTemp : float
}.

(** [reduce((sum, entry) => sum + entry.weather.temp, 0)]: a sum of
    integers, exact in doubles while it stays below 2^53. *)
Definition sumTemp (conditionEntries : list JournalEntry) : Z :=
  fold_left (fun sum entry => (sum + temp (weather entry))%Z) conditionEntries 0%Z.

(** [Math.round((highestCount / totalEntries) * 100)], in doubles. *)
Definition percentOf (highestCount totalEntries : nat) : float :=
  Math_round
    (PrimFloat.mul
       (PrimFloat.div (Number_of_nat highestCount) (Number_of_nat totalEntries))
       (Number_of_Z 100)).

(** [Math.round(sum / totalEntries)], in doubles. *)
Definition meanOf (sum : Z) (totalEntries : nat) : float :=
  Math_round (PrimFloat.div (Number_of_Z sum) (Number_of_nat totalEntries)).

(** The callback of [map]. *)
Definition analyse (group : jsstring * list JournalEntry) : Correlation :=
  let (condition, conditionEntries) := group in
  let moodCounts := countMoods conditionEntries in
  let (dominantMood, highestCount) := dominant moodCounts in
  let totalEntries := length conditionEntries in
  {| condition := condition;
     totalEntries := totalEntries;
     dominantMood := dominantMood;
     dominantPercentage := percentOf highestCount totalEntries;
     averageTemp := meanOf (sumTemp conditionEntries) totalEntries |}.

Definition byTotalEntries (a b : Correlation) : comparison :=
  signZ (Z.of_nat (totalEntries b) - Z.of_nat (totalEntries a)).

Definition correlation (entries : list JournalEntry) : Completion (list Correlation) :=
  bind (groupByCondition entries) (fun weatherGroups =>
  Return (Array_sort byTotalEntries (map analyse (Object_entries weatherGroups)))).

End WeatherCorrelation.

(* ================================================================= *)
(** * components/note-input.tsx *)

Module NoteInput.

Definition defaultMaxLength : nat := 200.

(** [handleChange]: the note that the parent holds after the textarea
    reports [newValue]; [onChange] is called only within the limit. *)
Definition handleChange (maxLength : nat) (value newValue : jsstring) : jsstring :=
  if (length newValue <=? maxLength)%nat then newValue else value.

End NoteInput.

(* ================================================================= *)
(** * hooks/use-theme.tsx *)

Module ThemeProvider.

(** The state of the provider, the text under [THEME_STORAGE_KEY] and
    whether the document element has the class [dark]. *)
Record ThemeState := mkThemeState {
  theme : jsstring;
  storedTheme : option jsstring;
  darkClass : bool
}.

Definition applyTheme (newTheme : jsstring) (st : ThemeState) : ThemeState :=
  {| theme := theme st;
     storedTheme := storedTheme st;
     darkClass := bool_decide (newTheme = lit "dark") |}.

(** The effect that runs on mount; [prefersDark] is the media query. *)
Definition initialise (prefersDark : bool) (st : ThemeState) : ThemeState :=
  let initialTheme :=
    or_default (storedTheme st) (if prefersDark then lit "dark" else lit "light") in
  applyTheme initialTheme
    {| theme := initialTheme; storedTheme := storedTheme st; darkClass := darkClass st |}.

Definition toggleTheme (st : ThemeState) : ThemeState :=
  let newTheme :=
    if bool_decide (theme st = lit "light") then lit "dark" else lit "light" in
  applyTheme newTheme
    {| theme := newTheme; storedTheme := Some newTheme; darkClass := darkClass st |}.

(** The provider as a page load finds it: the state starts as light,
    the storage is what it was, the document has no class yet. *)
Definition freshLoad (stored : option jsstring) : ThemeState :=
  {| theme := lit "light"; storedTheme := stored; darkClass := false |}.

End ThemeProvider.

(* ================================================================= *)
(** * app/settings/page.tsx *)

Module SettingsPage.

Record PageState := mkPageState {
  exportFormat : ExportFormat;
  isExporting : bool;
  showConfirmDelete : bool;
  entryCount : nat
}.

Inductive Toast :=
| NoEntriesToExport
| ExportSuccessful (fileName : jsstring)
| ExportFailed
| ExportProcessFailed
| DataCleared.

Definition setIsExporting (b : bool) (page : PageState) : PageState :=
  {| exportFormat := exportFormat page; isExporting := b;
     showConfirmDelete := showConfirmDelete page; entryCount := entryCount page |}.

(** [handleExport]: the page afterwards, the toast, and the file handed
    to the browser if any. *)
Definition handleExport (JSON_stringify_pretty : list JournalEntry -> jsstring)
    (currentDate : jsstring) (page : PageState) (store : localStorage)
  : PageState * Toast * option Download :=
  match getJournalEntries store with
  | Return entries =>
      if (length entries =? 0)%nat
      then (setIsExporting false page, NoEntriesToExport, None)
      else
        match exportJournalEntries JSON_stringify_pretty currentDate entries
                (exportFormat page) with
        | Return file =>
            (setIsExporting false page, ExportSuccessful (fileName file), Some file)
        | Throw _ => (setIsExporting false page, ExportFailed, None)
        end
  | Throw _ => (setIsExporting false page, ExportProcessFailed, None)
  end.

(** [handleClearData]; [localStorage.removeItem] leaves the key absent. *)
Definition handleClearData (page : PageState) (store : localStorage)
  : PageState * localStorage * option Toast :=
  if showConfirmDelete page
  then ({| exportFormat := exportFormat page; isExporting := isExporting page;
           showConfirmDelete := false; entryCount := 0 |},
        None, Some DataCleared)
  else ({| exportFormat := exportFormat page; isExporting := isExporting page;
           showConfirmDelete := true; entryCount := entryCount page |},
        store, None).

Definition cancelDelete (page : PageState) : PageState :=
  {| exportFormat := exportFormat page; isExporting := isExporting page;
     showConfirmDelete := false; entryCount := entryCount page |}.

End SettingsPage.

(* ================================================================= *)
(** * app/entries/page.tsx: the search and mood filters *)

Module EntriesPage.

Fixpoint startsWith (s q : jsstring) : bool :=
  match q, s with
  | [], _ => true
  | _ :: _, [] => false
  | c :: q', d :: s' => (c =? d)%N && startsWith s' q'
  end.

(** [s.includes(q)]: [q] occurs in [s]. *)
Fixpoint includes (s q : jsstring) : bool :=
  startsWith s q ||
  match s with
  | [] => false
  | _ :: s' => includes s' q
  end.

Section WithToLowerCase.
(** [String.prototype.toLowerCase]. *)
Variable toLowerCase : jsstring -> jsstring.

Definition matches (query : jsstring) (entry : JournalEntry) : bool :=
  includes (toLowerCase (note entry)) query
  || includes (toLowerCase (date entry)) query.

(** The effect that computes [filteredEntries]; the mood filter [all]
    is [None]. *)
Definition applyFilters (entries : list JournalEntry) (searchQuery : jsstring)
    (moodFilter : option Mood) : list JournalEntry :=
  let result :=
    match moodFilter with
    | None => entries
    | Some m => filter (fun entry => mood entry = m) entries
    end in
  match trim searchQuery with
  | [] => result
  | _ :: _ =>
      let query := toLowerCase searchQuery in
      filter (fun entry => matches query entry = true) result
  end.

End WithToLowerCase.

End EntriesPage.

(* ================================================================= *)
(** * app/trends/page.tsx *)

Module TrendsPage.

Record PageState := mkPageState {
  entries : list JournalEntry;
  filteredEntries : list JournalEntry;
  isLoading : bool;
  timeRange : TimeRange;
  addingSamples : bool
}.

Inductive Toast :=
| SampleEntriesAdded
| FailedToAddSampleEntries.

(** The state of the first render. *)
Definition initial : PageState :=
  {| entries := []; filteredEntries := []; isLoading := true;
     timeRange := week; addingSamples := false |}.

(** The effect that depends on [entries] and [timeRange]; React runs it
    after a render in which one of them changed.  [now] is the reading of
    [Date.now()] inside the filter. *)
Definition refilter (now : Z) (page : PageState) : PageState :=
  {| entries := entries page;
     filteredEntries := filterEntriesByTimeRange now (entries page) (timeRange page);
     isLoading := isLoading page;
     timeRange := timeRange page;
     addingSamples := addingSamples page |}.

(** [loadEntries], the effect of the first render. *)
Definition loadEntries (now : Z) (page : PageState) (store : localStorage)
  : PageState :=
  match getJournalEntries store with
  | Return journalEntries =>
      {| entries := journalEntries;
         filteredEntries :=
           filterEntriesByTimeRange now journalEntries (timeRange page);
         isLoading := false;
         timeRange := timeRange page;
         addingSamples := addingSamples page |}
  | Throw _ =>
      {| entries := entries page;
         filteredEntries := filteredEntries page;
         isLoading := false;
         timeRange := timeRange page;
         addingSamples := addingSamples page |}
  end.

Definition handleTimeRangeChange (range : TimeRange) (page : PageState)
  : PageState :=
  {| entries := entries page;
     filteredEntries := filteredEntries page;
     isLoading := isLoading page;
     timeRange := range;
     addingSamples := addingSamples page |}.

Definition setAddingSamples (b : bool) (page : PageState) : PageState :=
  {| entries := entries page;
     filteredEntries := filteredEntries page;
     isLoading := isLoading page;
     timeRange := timeRange page;
     addingSamples := b |}.

Section WithLibraries.
Variable dateFormat_long : Z -> jsstring.

(** [handleAddSampleEntries]: the state when the handler has finished;
    [addingSamples] is true while it runs.  [now], [today] and [stamp] are
    the clock readings of [addSampleEntries], [refused] the outcomes of
    its writes. *)
Definition handleAddSampleEntries (now today : Z)
    (refused : nat -> option JsError) (stamp : nat -> Z)
    (page : PageState) (store : localStorage)
  : PageState * localStorage * Toast :=
  let page := setAddingSamples true page in
  match StorageQuota.addSampleEntries dateFormat_long now today refused stamp
          store with
  | (Return _, store') =>
      match getJournalEntries store' with
      | Return journalEntries =>
          (setAddingSamples false
             {| entries := journalEntries;
                filteredEntries := filteredEntries page;
                isLoading := isLoading page;
                timeRange := timeRange page;
                addingSamples := addingSamples page |},
           store', SampleEntriesAdded)
      | Throw _ => (setAddingSamples false page, store', FailedToAddSampleEntries)
      end
  | (Throw _, store') =>
      (setAddingSamples false page, store', FailedToAddSampleEntries)
  end.

End WithLibraries.

End TrendsPage.

(* ================================================================= *)
(** * components/calendar-view.tsx *)

Module CalendarView.

Section WithDateFns.
(** The key of the day that a date text names: the text is read with
    [parse] and the pattern [MMMM d, yyyy] or, when that gives no valid
    date, with [new Date]; a valid date is printed with [format] and the
    pattern [yyyy-MM-dd].  [None] when neither reading gives a valid date
    or one of the calls throws.  A key is a text of digits and hyphens, so
    it names no inherited property of the object. *)
Variable dateKey : jsstring -> option jsstring.

(** [getDatesWithEntries]: the object that maps a day to a mood. *)
Definition getDatesWithEntries (entries : list JournalEntry) : gmap jsstring Mood :=
  fold_left
    (fun acc entry =>
       match dateKey (date entry) with
       | Some key => <[key := mood entry]> acc
       | None => acc
       end)
    entries ∅.

End WithDateFns.

End CalendarView.

(* ================================================================= *)
(** * Vocabulary of the statements *)

(** The order that a stable sort establishes: [a] precedes [b] when the
    comparator puts it first, or when the comparator ties and [a] came
    first in the input (relation [S]). *)
Definition stableOrder {A : Type} (compareFn : A -> A -> comparison)
    (S : A -> A -> Prop) (a b : A) : Prop :=
  compareFn a b = Lt \/ (compareFn a b = Eq /\ S a b).

(** The entries that the store holds. *)
Definition persisted (store : localStorage) : list JournalEntry :=
  match store with
  | Some (Json entries) => entries
  | _ => []
  end.

(** [s.split] at line feeds: the lines of a text. *)
Fixpoint splitLines (s : jsstring) : list jsstring :=
  match s with
  | [] => [[]]
  | c :: s' =>
      if (c =? LF)%N then [] :: splitLines s'
      else
        match splitLines s' with
        | l :: ls => (c :: l) :: ls
        | [] => [[c]]
        end
  end.

(** ** Doubles that are not negative

    The values of a double as [Prim2SF] gives them: a zero, a finite
    number [m * 2^e] or an infinity, with a sign, or NaN. *)


(** +0, a positive finite number or +infinity. *)
Definition SFnonneg (x : spec_float) : Prop :=
  match x with
  | S754_zero false | S754_infinity false | S754_finite false _ _ => True
  | _ => False
  end.



(** The number of entries with mood [m]. *)
Definition occurrences (m : Mood) (entries : list JournalEntry) : nat :=
  length (filter (fun entry => mood entry = m) entries).

(** [round(num / den)] for [den > 0], a tie going up. *)
Definition roundHalfUp (num den : Z) : Z := ((2 * num + den) / (2 * den))%Z.

(** The number of line feeds in a text. *)
Definition lineFeeds (s : jsstring) : nat := length (filter (fun c => c = LF) s).

(** The header row without its line feed. *)
Definition headerLine : jsstring :=
  lit "Date,Mood,Note,Temperature,Weather Condition,Location".

(** ** Data for the examples *)

(** [getFallbackWeather()] of [services/weather-service.ts]. *)
Definition getFallbackWeather : Weather :=
  {| temp := 22; condition := lit "Clear"; icon := lit "01d";
     location := Some (lit "New York") |}.

Definition rain (place : option jsstring) : Weather :=
  {| temp := 18; condition := lit "Rain"; icon := lit "10d"; location := place |}.

(** A formatter that prints every date as April 1, 2025 and a pretty
    printer that prints an empty array; the examples fix them because the
    properties shown there do not depend on either. *)
Definition aprilFirst (t : Z) : jsstring := lit "April 1, 2025".
Definition emptyArray (entries : list JournalEntry) : jsstring := lit "[]".

Definition entryAt (stamp : Z) (m : Mood) (text : jsstring) (w : Weather)
  : JournalEntry :=
  {| id := Number_toString stamp; date := aprilFirst stamp; mood := m;
     note := text; weather := w; timestamp := stamp |}.

(** A place name that contains double quotes, and notes of two lines. *)
Definition oldTown : jsstring := [QUOTE] ++ lit "Old" ++ [QUOTE] ++ lit " Town".
Definition twoLines : jsstring := lit "rainy" ++ [LF] ++ lit "again".


(** Three rainy days with the moods sad, sad, happy; and forty rainy
    days, one entry a day, the first 23 happy and the last 17 sad. *)
Definition threeRainyDays : list JournalEntry :=
  [ entryAt 1743465600000 sad (lit "wet") (rain None);
    entryAt 1743552000000 sad (lit "wet again") (rain None);
    entryAt 1743638400000 happy (lit "puddles") (rain None) ].

Definition fortyRainyDays : list JournalEntry :=
  map (fun day : nat =>
         entryAt (1743465600000 + Z.of_nat day * msInDay)
           (if (day <? 23)%nat then happy else sad) (lit "rain") (rain None))
    (seq 0 40).

(** The entries of a list that have the weather condition [c]. *)
Definition withCondition (c : jsstring) (entries : list JournalEntry)
  : list JournalEntry :=
  filter (fun entry => condition (weather entry) = c) entries.

(** What the grouping loop maintains: the keys are distinct, the group
    of a key holds the entries with that condition in input order and is
    not empty, and every entry has its group. *)
Definition wellGrouped (entries : list JournalEntry)
    (groups : WeatherCorrelation.Groups) : Prop :=
  NoDup groups.*1 /\
  (forall c es, (c, es) ∈ groups -> es = withCondition c entries /\ es <> []) /\
  (forall entry, entry ∈ entries -> condition (weather entry) ∈ groups.*1).

(** ** Reading a CSV row back

    A reader of rows made of quoted fields separated by commas, in which a
    double quote inside a field is written twice (RFC 4180). *)

(** The field that starts after an opening quote: its text and what
    follows the closing quote. *)
Fixpoint readField (s : jsstring) : option (jsstring * jsstring) :=
  match s with
  | [] => None
  | c :: s' =>
      if (c =? QUOTE)%N then
        match s' with
        | c' :: s'' =>
            if (c' =? QUOTE)%N then
              match readField s'' with
              | Some (text, rest) => Some (QUOTE :: text, rest)
              | None => None
              end
            else Some ([], s')
        | [] => Some ([], [])
        end
      else
        match readField s' with
        | Some (text, rest) => Some (c :: text, rest)
        | None => None
        end
  end.

Definition COMMA : N := 44.

Fixpoint readFields (fuel : nat) (s : jsstring) : option (list jsstring) :=
  match fuel, s with
  | S fuel', c :: s' =>
      if (c =? QUOTE)%N then
        match readField s' with
        | Some (text, []) => Some [text]
        | Some (text, d :: rest) =>
            if (d =? COMMA)%N then
              match readFields fuel' rest with
              | Some fields => Some (text :: fields)
              | None => None
              end
            else None
        | None => None
        end
      else None
  | _, _ => None
  end.

Definition readRow (s : jsstring) : option (list jsstring) :=
  readFields (length s) s.

(** The values of the six columns of an entry. *)
Definition columns (entry : JournalEntry) : list jsstring :=
  [ date entry;
    Mood_string (mood entry);
    note entry;
    Number_toString (temp (weather entry)) ++ [DEGREE] ++ lit "C";
    condition (weather entry);
    or_default (location (weather entry)) (lit "Unknown") ].

Definition quoteFree (s : jsstring) : Prop := QUOTE ∉ s.

(** ASCII lower case, an instance of [toLowerCase] for the examples. *)
Definition asciiLower (s : jsstring) : jsstring :=
  map (fun c => if ((65 <=? c) && (c <=? 90))%N then (c + 32)%N else c) s.

Definition sumNat (l : list nat) : nat := foldr Nat.add 0 l.


(** A clear day before the three rainy days. *)
Definition mixedDays : list JournalEntry :=
  entryAt 1743379200000 happy (lit "sun") getFallbackWeather :: threeRainyDays.


(* ================================================================= *)
(** * Facts about [Array_sort] *)

Section ArraySortFacts.
Context {A : Type} (compareFn : A -> A -> comparison) (S : A -> A -> Prop).

Lemma insert_Permutation (x : A) (l : list A) :
  insert compareFn x l ≡ₚ x :: l.
Proof.
  induction l as [|y l IH]; simpl; [done|].
  destruct (compareFn x y); try done.
  rewrite IH. apply Permutation_swap.
Qed.

Lemma Array_sort_Permutation (l : list A) : Array_sort compareFn l ≡ₚ l.
Proof.
  induction l as [|x l IH]; simpl; [done|].
  rewrite insert_Permutation. by rewrite IH.
Qed.

Lemma Array_sort_length (l : list A) : length (Array_sort compareFn l) = length l.
Proof. by rewrite Array_sort_Permutation. Qed.

(** The comparator is consistent. *)
Hypothesis compare_flip : forall a b, compareFn a b = Gt -> compareFn b a = Lt.
Hypothesis compare_trans :
  forall a b c, compareFn a b <> Gt -> compareFn b c <> Gt -> compareFn a c <> Gt.

Lemma stableOrder_not_Gt (a b : A) : stableOrder compareFn S a b -> compareFn a b <> Gt.
Proof. intros [H|[H _]]; rewrite H; discriminate. Qed.

Lemma insert_StronglySorted (x : A) (l : list A) :
  Forall (S x) l ->
  StronglySorted (stableOrder compareFn S) l ->
  StronglySorted (stableOrder compareFn S) (insert compareFn x l).
Proof.
  intros HS Hsorted. induction Hsorted as [|y l Hl IH Hy]; simpl.
  - repeat constructor.
  - inversion_clear HS as [|? ? HSy HSl].
    assert (Hhead : compareFn x y <> Gt ->
              Forall (stableOrder compareFn S x) (y :: l)).
    { intros Hxy. apply Forall_forall. intros z Hz.
      assert (Hxz : compareFn x z <> Gt).
      { apply elem_of_cons in Hz as [->|Hz]; [done|].
        apply compare_trans with y; [done|].
        apply stableOrder_not_Gt. rewrite Forall_forall in Hy.
        by apply Hy. }
      assert (HSxz : S x z).
      { assert (HF : Forall (S x) (y :: l)) by by constructor.
        rewrite Forall_forall in HF. by apply HF. }
      unfold stableOrder. destruct (compareFn x z); [by right|by left|done]. }
    destruct (compareFn x y) eqn:Hxy.
    + constructor; [by constructor|]. by apply Hhead.
    + constructor; [by constructor|]. by apply Hhead.
    + constructor; [by apply IH|].
      rewrite insert_Permutation. constructor; [|done].
      left. by apply compare_flip.
Qed.

Lemma Array_sort_StronglySorted (l : list A) :
  StronglySorted S l -> StronglySorted (stableOrder compareFn S) (Array_sort compareFn l).
Proof.
  induction 1 as [|x l Hl IH Hx]; simpl; [constructor|].
  apply insert_StronglySorted; [|done].
  by rewrite Array_sort_Permutation.
Qed.

End ArraySortFacts.

Lemma StronglySorted_weaken {A : Type} (R R' : A -> A -> Prop) (l : list A) :
  (forall a b, R a b -> R' a b) -> StronglySorted R l -> StronglySorted R' l.
Proof.
  intros HR. induction 1 as [|x l Hl IH Hx]; constructor; [done|].
  eapply Forall_impl; [done|]. auto.
Qed.

Lemma StronglySorted_True {A : Type} (l : list A) :
  StronglySorted (fun _ _ => True) l.
Proof.
  induction l; constructor; [done|]. by apply Forall_forall.
Qed.

(* ================================================================= *)
(** * The journal store: [getJournalEntries] *)

Lemma signZ_Lt (z : Z) : signZ z = Lt <-> (z < 0)%Z.
Proof. unfold signZ. by rewrite Z.compare_lt_iff. Qed.

Lemma signZ_Gt (z : Z) : signZ z = Gt <-> (0 < z)%Z.
Proof. unfold signZ. rewrite Z.compare_gt_iff. lia. Qed.

Lemma signZ_not_Gt (z : Z) : signZ z <> Gt <-> (z <= 0)%Z.
Proof. rewrite signZ_Gt. lia. Qed.

Lemma newestFirst_flip (a b : JournalEntry) :
  newestFirst a b = Gt -> newestFirst b a = Lt.
Proof. unfold newestFirst. rewrite signZ_Gt, signZ_Lt. lia. Qed.

Lemma newestFirst_trans (a b c : JournalEntry) :
  newestFirst a b <> Gt -> newestFirst b c <> Gt -> newestFirst a c <> Gt.
Proof. unfold newestFirst. rewrite !signZ_not_Gt. lia. Qed.

Lemma newestFirst_sorted (entries : list JournalEntry) :
  StronglySorted (fun a b => (timestamp b <= timestamp a)%Z)
    (Array_sort newestFirst entries).
Proof.
  apply StronglySorted_weaken
    with (R := stableOrder newestFirst (fun _ _ => True)).
  - intros a b Hab. apply stableOrder_not_Gt in Hab.
    unfold newestFirst in Hab. rewrite signZ_not_Gt in Hab. lia.
  - apply Array_sort_StronglySorted.
    + apply newestFirst_flip.
    + apply newestFirst_trans.
    + apply StronglySorted_True.
Qed.

Lemma getJournalEntries_persisted (store : localStorage) :
  getJournalEntries store = Return (Array_sort newestFirst (persisted store)).
Proof. by destruct store as [[| |entries]|]. Qed.

(** C6.  For every state of the store, [getJournalEntries] returns (it
    never throws) the persisted entries, rearranged so that timestamps
    are non-increasing; it returns the empty list when the key is absent
    and when the stored text does not parse (or is empty). *)
Theorem getJournalEntries_sorted_or_empty :
  (forall store, exists l,
      getJournalEntries store = Return l /\
      l ≡ₚ persisted store /\
      StronglySorted (fun a b => (timestamp b <= timestamp a)%Z) l) /\
  getJournalEntries None = Return [] /\
  getJournalEntries (Some Malformed) = Return [] /\
  getJournalEntries (Some Blank) = Return [].
Proof.
  split; [|done].
  intros store. exists (Array_sort newestFirst (persisted store)).
  split; [apply getJournalEntries_persisted|].
  split; [apply Array_sort_Permutation|apply newestFirst_sorted].
Qed.

(* ================================================================= *)
(** * The time-range filter *)

Lemma filter_week (now : Z) (entries : list JournalEntry) :
  filterEntriesByTimeRange now entries week
  = filter (fun entry => (now - 7 * 86400000 <= timestamp entry)%Z) entries.
Proof. done. Qed.

Lemma filter_month (now : Z) (entries : list JournalEntry) :
  filterEntriesByTimeRange now entries month
  = filter (fun entry => (now - 30 * 86400000 <= timestamp entry)%Z) entries.
Proof. done. Qed.

Lemma filter_sublist_input (now : Z) (entries : list JournalEntry) (range : TimeRange) :
  filterEntriesByTimeRange now entries range `sublist_of` entries.
Proof. destruct range; simpl; [apply sublist_filter..|done]. Qed.

(** C7.  At a fixed current time, the week filter keeps a subsequence of
    what the month filter keeps, which is a subsequence of the input, and
    the range [all] returns the input itself; an entry is kept by the week
    (month) filter exactly when its timestamp is at least
    [now - 7 * 86400000] ([now - 30 * 86400000]), the cutoff included.
    The results are subsequences of the input, so order is preserved;
    the function is pure, its argument is left as it is. *)
Theorem filter_monotone (now : Z) (entries : list JournalEntry) :
  filterEntriesByTimeRange now entries week
    `sublist_of` filterEntriesByTimeRange now entries month /\
  filterEntriesByTimeRange now entries month
    `sublist_of` filterEntriesByTimeRange now entries all /\
  filterEntriesByTimeRange now entries all = entries /\
  (forall x, x ∈ filterEntriesByTimeRange now entries week <->
             x ∈ entries /\ (now - 7 * 86400000 <= timestamp x)%Z) /\
  (forall x, x ∈ filterEntriesByTimeRange now entries month <->
             x ∈ entries /\ (now - 30 * 86400000 <= timestamp x)%Z).
Proof.
  split; [|split; [|split; [done|split]]].
  - rewrite filter_week, filter_month.
    rewrite <- (list_filter_filter_l
      (fun entry => (now - 7 * 86400000 <= timestamp entry)%Z)
      (fun entry => (now - 30 * 86400000 <= timestamp entry)%Z)) by (intros; lia).
    apply sublist_filter.
  - apply (filter_sublist_input now entries month).
  - intros x. rewrite filter_week, list_elem_of_filter. tauto.
  - intros x. rewrite filter_month, list_elem_of_filter. tauto.
Qed.

(** C9.  The week and month filters have a lower bound only: an entry of
    the input whose timestamp lies after the current time is kept by
    both. *)
Theorem future_entries_retained (now : Z) (entries : list JournalEntry)
    (entry : JournalEntry) :
  entry ∈ entries -> (now < timestamp entry)%Z ->
  entry ∈ filterEntriesByTimeRange now entries week /\
  entry ∈ filterEntriesByTimeRange now entries month.
Proof.
  intros Hin Hfuture.
  rewrite filter_week, filter_month, !list_elem_of_filter.
  repeat split; [lia|done|lia|done].
Qed.

(* ================================================================= *)
(** * The export module *)

Lemma lineFeeds_app (a b : jsstring) : lineFeeds (a ++ b) = lineFeeds a + lineFeeds b.
Proof. unfold lineFeeds. by rewrite filter_app, length_app. Qed.

Lemma lineFeeds_cons (c : N) (s : jsstring) :
  lineFeeds (c :: s) = (if decide (c = LF) then 1 else 0) + lineFeeds s.
Proof. unfold lineFeeds. rewrite filter_cons. by case_decide. Qed.

Lemma splitLines_length (s : jsstring) : length (splitLines s) = S (lineFeeds s).
Proof.
  induction s as [|c s IH]; [done|].
  rewrite lineFeeds_cons. simpl.
  destruct (N.eqb_spec c LF) as [->|Hc].
  - simpl. by rewrite IH.
  - rewrite decide_False by done.
    destruct (splitLines s); simpl in *; lia.
Qed.

Lemma splitLines_no_lineFeed (s : jsstring) : lineFeeds s = 0 -> splitLines s = [s].
Proof.
  induction s as [|c s IH]; [done|].
  rewrite lineFeeds_cons. simpl.
  destruct (N.eqb_spec c LF) as [->|Hc]; [done|].
  rewrite decide_False by done. intros Hs. by rewrite IH.
Qed.

Lemma splitLines_first_line (a b : jsstring) :
  lineFeeds a = 0 -> splitLines (a ++ [LF] ++ b) = a :: splitLines b.
Proof.
  induction a as [|c a IH]; [done|].
  rewrite lineFeeds_cons. cbn [app splitLines].
  destruct (N.eqb_spec c LF) as [->|Hc]; [done|].
  rewrite decide_False by done. intros Ha.
  change (LF :: b) with ([LF] ++ b). by rewrite IH.
Qed.

Lemma lineFeeds_doubleQuotes (s : jsstring) : lineFeeds (doubleQuotes s) = lineFeeds s.
Proof.
  induction s as [|c s IH]; [done|].
  unfold doubleQuotes in *. simpl. rewrite lineFeeds_app, IH, lineFeeds_cons.
  destruct (N.eqb_spec c QUOTE) as [->|Hc]; [reflexivity|].
  rewrite lineFeeds_cons. change (lineFeeds []) with 0. lia.
Qed.

Lemma lineFeeds_quoted (s : jsstring) : lineFeeds (quoted s) = lineFeeds s.
Proof.
  unfold quoted. rewrite !lineFeeds_app. change (lineFeeds [QUOTE]) with 0. lia.
Qed.

Lemma lineFeeds_digits (d : Decimal.uint) :
  lineFeeds (lit (NilEmpty.string_of_uint d)) = 0.
Proof.
  induction d; [done|..];
    simpl; unfold lit in *; simpl; rewrite lineFeeds_cons, IHd; reflexivity.
Qed.

Lemma lineFeeds_Number_toString (z : Z) : lineFeeds (Number_toString z) = 0.
Proof.
  unfold Number_toString.
  destruct (Z.to_int z) as [d|d]; simpl.
  - destruct d; try done; apply (lineFeeds_digits (_ d)).
  - unfold lit. simpl. rewrite lineFeeds_cons.
    destruct d; try done; apply (lineFeeds_digits (_ d)).
Qed.

Lemma lineFeeds_Mood_string (m : Mood) : lineFeeds (Mood_string m) = 0.
Proof. by destruct m. Qed.

Lemma lineFeeds_or_default (place : option jsstring) :
  lineFeeds (or_default place (lit "Unknown")) = lineFeeds (default [] place).
Proof. by destruct place as [[|c s]|]. Qed.

Lemma csvRow_fields (entry : JournalEntry) :
  csvRow entry =
    quoted (date entry) ++ lit "," ++
    quoted (Mood_string (mood entry)) ++ lit "," ++
    quoted (doubleQuotes (note entry)) ++ lit "," ++
    quoted (Number_toString (temp (weather entry)) ++ [DEGREE] ++ lit "C") ++ lit "," ++
    quoted (condition (weather entry)) ++ lit "," ++
    quoted (or_default (location (weather entry)) (lit "Unknown")).
Proof. reflexivity. Qed.

Lemma lineFeeds_csvRow (entry : JournalEntry) :
  lineFeeds (csvRow entry) =
    lineFeeds (date entry) + lineFeeds (note entry) +
    lineFeeds (condition (weather entry)) +
    lineFeeds (default [] (location (weather entry))).
Proof.
  rewrite csvRow_fields.
  rewrite !lineFeeds_app, !lineFeeds_quoted, !lineFeeds_app.
  rewrite lineFeeds_Mood_string, lineFeeds_doubleQuotes,
    lineFeeds_Number_toString, lineFeeds_or_default.
  change (lineFeeds (lit ",")) with 0. change (lineFeeds [DEGREE]) with 0.
  change (lineFeeds (lit "C")) with 0. lia.
Qed.

Section ExportFacts.
Variable JSON_stringify_pretty : list JournalEntry -> jsstring.
Variable currentDate : jsstring.

Lemma exportJournalEntries_empty (format : ExportFormat) :
  exportJournalEntries JSON_stringify_pretty currentDate [] format
  = Throw (Error (lit "No entries to export")).
Proof. done. Qed.

(** What the CSV export does produce: the header row, then the rows of
    the entries in input order, separated by line feeds. *)
Lemma exportJournalEntries_csv (entry : JournalEntry) (entries : list JournalEntry) :
  exportJournalEntries JSON_stringify_pretty currentDate (entry :: entries) csv
  = Return {| dataStr := headerLine ++ [LF] ++ join [LF] (map csvRow (entry :: entries));
              fileName := lit "moodmate-journal-" ++ currentDate ++ lit ".csv";
              mimeType := lit "text/csv" |}.
Proof. done. Qed.

(** C2.  The value of the CSV export at an entry whose location is
    [oldTown]: the last field carries the two double quotes of the place
    name as they are, where doubling would give four. *)
Theorem csv_export_leaves_location_quotes :
  exists file,
    exportJournalEntries JSON_stringify_pretty currentDate
      [entryAt 1743465600000 happy (lit "fine") (rain (Some oldTown))] csv
    = Return file /\
    dataStr file =
      headerLine ++ [LF] ++
      quoted (lit "April 1, 2025") ++ lit "," ++ quoted (lit "happy") ++ lit "," ++
      quoted (lit "fine") ++ lit "," ++ quoted (lit "18" ++ [DEGREE] ++ lit "C") ++
      lit "," ++ quoted (lit "Rain") ++ lit "," ++
      quoted ([QUOTE] ++ lit "Old" ++ [QUOTE] ++ lit " Town") /\
    doubleQuotes oldTown = [QUOTE; QUOTE] ++ lit "Old" ++ [QUOTE; QUOTE] ++ lit " Town".
Proof. eexists. split; [reflexivity|]. split; reflexivity. Qed.

(** C8, as amended.  Export throws the error of the empty export for
    both formats; the CSV export of one entry is the header line, a line
    feed and the row of the entry, and its number of lines is 2 plus the
    number of line feeds inside the date, the note, the weather condition
    and the location of the entry. *)
Theorem export_empty_throws_single_entry_lines (entry : JournalEntry) :
  exportJournalEntries JSON_stringify_pretty currentDate [] csv
    = Throw (Error (lit "No entries to export")) /\
  exportJournalEntries JSON_stringify_pretty currentDate [] json
    = Throw (Error (lit "No entries to export")) /\
  exists file,
    exportJournalEntries JSON_stringify_pretty currentDate [entry] csv = Return file /\
    dataStr file = headerLine ++ [LF] ++ csvRow entry /\
    length (splitLines (dataStr file)) =
      2 + (lineFeeds (date entry) + lineFeeds (note entry) +
           lineFeeds (condition (weather entry)) +
           lineFeeds (default [] (location (weather entry)))).
Proof.
  split; [done|]. split; [done|].
  rewrite exportJournalEntries_csv.
  eexists. split; [reflexivity|]. cbn [dataStr map join]. split; [reflexivity|].
  rewrite splitLines_length, !lineFeeds_app, lineFeeds_csvRow. reflexivity.
Qed.

End ExportFacts.

(** When no field holds a line feed the two lines are the header and the
    row. *)
Lemma export_single_entry_two_lines (pretty : list JournalEntry -> jsstring)
    (currentDate : jsstring) (entry : JournalEntry) :
  lineFeeds (csvRow entry) = 0 ->
  exists file,
    exportJournalEntries pretty currentDate [entry] csv = Return file /\
    splitLines (dataStr file) = [headerLine; csvRow entry].
Proof.
  intros Hrow. rewrite exportJournalEntries_csv.
  eexists. split; [reflexivity|]. cbn [dataStr map join].
  rewrite splitLines_first_line by done.
  by rewrite splitLines_no_lineFeed.
Qed.

(** C8, the claim as stated fails: an entry whose note has two lines is
    exported in three lines. *)
Lemma export_two_line_note_three_lines :
  exists file,
    exportJournalEntries emptyArray (lit "2025-04-01")
      [entryAt 1743465600000 sad twoLines (rain None)] csv = Return file /\
    length (splitLines (dataStr file)) = 3.
Proof. eexists. split; reflexivity. Qed.

(** C10.  An entry whose location is the empty string is exported with
    the last field Unknown, as one without location is. *)
Theorem csv_empty_location_is_Unknown (entry : JournalEntry) :
  location (weather entry) = Some [] ->
  last (csvFields entry) = Some (lit "Unknown") /\
  csvRow entry =
    quoted (date entry) ++ lit "," ++
    quoted (Mood_string (mood entry)) ++ lit "," ++
    quoted (doubleQuotes (note entry)) ++ lit "," ++
    quoted (Number_toString (temp (weather entry)) ++ [DEGREE] ++ lit "C") ++ lit "," ++
    quoted (condition (weather entry)) ++ lit "," ++
    quoted (lit "Unknown").
Proof.
  intros Hplace. rewrite csvRow_fields. unfold csvFields. cbn [last].
  by rewrite Hplace.
Qed.

Lemma csv_empty_location_is_Unknown_example :
  let entry := entryAt 1743465600000 sad (lit "wet") (rain (Some [])) in
  location (weather entry) = Some [] /\
  last (csvFields entry) = Some (lit "Unknown") /\
  csvRow entry =
    quoted (lit "April 1, 2025") ++ lit "," ++ quoted (lit "sad") ++ lit "," ++
    quoted (lit "wet") ++ lit "," ++ quoted (lit "18" ++ [DEGREE] ++ lit "C") ++
    lit "," ++ quoted (lit "Rain") ++ lit "," ++ quoted (lit "Unknown").
Proof.
  intros entry. split; [reflexivity|].
  apply (csv_empty_location_is_Unknown entry). reflexivity.
Defined.

Lemma csv_missing_location_is_Unknown (entry : JournalEntry) :
  location (weather entry) = None ->
  last (csvFields entry) = Some (lit "Unknown").
Proof. intros Hplace. unfold csvFields. cbn [last]. by rewrite Hplace. Qed.

Lemma future_entries_retained_example :
  let entry := entryAt 1743465600001 happy (lit "later") getFallbackWeather in
  entry ∈ [entry] /\ (1743465600000 < timestamp entry)%Z /\
  entry ∈ filterEntriesByTimeRange 1743465600000 [entry] week /\
  entry ∈ filterEntriesByTimeRange 1743465600000 [entry] month.
Proof.
  intros entry.
  assert (Hin : entry ∈ [entry]) by apply list_elem_of_here.
  assert (Hfuture : (1743465600000 < timestamp entry)%Z) by reflexivity.
  split; [exact Hin|]. split; [exact Hfuture|].
  exact (future_entries_retained 1743465600000 [entry] entry Hin Hfuture).
Defined.

(* ================================================================= *)
(** * Saving an entry *)

Section SaveFacts.
Variable dateFormat_long : Z -> jsstring.

(** [saveJournalEntry] returns the new entry, built from its arguments
    field by field, and stores it in front of the sorted former
    entries. *)
Lemma saveJournalEntry_result (now : Z) (entryData : EntryData) (store : localStorage) :
  exists newEntry,
    saveJournalEntry dateFormat_long now entryData store
    = (Return newEntry,
       Some (Json (newEntry :: Array_sort newestFirst (persisted store)))) /\
    id newEntry = Number_toString now /\
    date newEntry = dateFormat_long (ed_date entryData) /\
    mood newEntry = ed_mood entryData /\
    note newEntry = ed_note entryData /\
    weather newEntry = ed_weather entryData /\
    timestamp newEntry = ed_date entryData.
Proof.
  unfold saveJournalEntry. rewrite getJournalEntries_persisted.
  eexists. split; [reflexivity|]. by repeat split.
Qed.

Lemma saveJournalEntry_twice_same_reading (now : Z) (first second : EntryData)
    (store : localStorage) :
  let store1 := snd (saveJournalEntry dateFormat_long now first store) in
  let store2 := snd (saveJournalEntry dateFormat_long now second store1) in
  ~ NoDup (id <$> persisted store2).
Proof.
  intros store1 store2.
  destruct (saveJournalEntry_result now first store) as (e1 & Hsave1 & Hid1 & _).
  destruct (saveJournalEntry_result now second store1) as (e2 & Hsave2 & Hid2 & _).
  subst store2. rewrite Hsave2. subst store1. rewrite Hsave1.
  cbn [snd persisted]. rewrite fmap_cons, NoDup_cons.
  intros [Hfresh _]. apply Hfresh.
  rewrite Hid2, <- Hid1. apply list_elem_of_fmap_2.
  rewrite Array_sort_Permutation. apply list_elem_of_here.
Qed.

(** A save keeps the ids pairwise distinct exactly when they were so
    and the reading of the clock, as a string, is not yet an id. *)
Lemma saveJournalEntry_NoDup (now : Z) (entryData : EntryData) (store : localStorage) :
  NoDup (id <$> persisted (snd (saveJournalEntry dateFormat_long now entryData store)))
  <-> (Number_toString now ∉ id <$> persisted store) /\ NoDup (id <$> persisted store).
Proof.
  destruct (saveJournalEntry_result now entryData store) as (e & -> & Hid & _).
  cbn [snd persisted]. rewrite fmap_cons, NoDup_cons, Hid.
  by rewrite Array_sort_Permutation.
Qed.

End SaveFacts.

(** C1.  Two saves that read the same millisecond from the clock leave
    two entries with the same id in the store, whatever the store held
    and whatever is saved; in particular, when the six saves of
    [addSampleEntries] into an empty store read the millisecond
    1745000000000, the six persisted entries all have the id
    1745000000000. *)
Theorem same_millisecond_saves_share_id :
  (forall dateFormat_long now first second store,
      ~ NoDup (id <$> persisted
                 (snd (saveJournalEntry dateFormat_long now second
                    (snd (saveJournalEntry dateFormat_long now first store)))))) /\
  id <$> persisted
           (snd (addSampleEntries aprilFirst 1745000000000 1745000000000
                   (fun _ => 1745000000000%Z) None))
  = replicate 6 (lit "1745000000000").
Proof.
  split.
  - intros. apply saveJournalEntry_twice_same_reading.
  - vm_compute. reflexivity.
Qed.

(* ================================================================= *)
(** * The default note *)

Lemma trimStart_whitespace (s : jsstring) :
  Forall (fun c => isWhiteSpace c = true) s -> trimStart s = [].
Proof.
  induction 1 as [|c s Hc _ IH]; [done|]. simpl. by rewrite Hc.
Qed.

(** The empty string and the strings made of white space trim to the
    empty string. *)
Lemma trim_whitespace (s : jsstring) :
  Forall (fun c => isWhiteSpace c = true) s -> trim s = [].
Proof. intros Hs. unfold trim. by rewrite trimStart_whitespace. Qed.




(* ================================================================= *)
(** * Doubles: the sign of a difference

    The comparator of [moodStats] subtracts two percentages.  For doubles
    that are not negative the sign of the rounded difference is their
    comparison: the difference of two different doubles does not round to
    zero.  The facts are read off the specification of binary64
    ([SpecFloat]), which the primitive operations satisfy. *)

Section DoubleFacts.
Local Open Scope Z_scope.


















(** The comparison of numbers that are not negative is a total
    preorder. *)
Lemma SFcompare_nonneg (x y : spec_float) :
  SFnonneg x -> SFnonneg y -> is_Some (SFcompare x y).
Proof.
  destruct x as [[]|[]| |[] mx ex], y as [[]|[]| |[] my ey]; try done;
    intros _ _; by eexists.
Qed.














End DoubleFacts.

(* ================================================================= *)
(** * A stable sort under a comparator that is consistent on the elements *)

Section ArraySortOn.
Context {A : Type} (compareFn : A -> A -> comparison) (S : A -> A -> Prop).
Context (P : A -> Prop).

Hypothesis compare_flip_on :
  forall a b, P a -> P b -> compareFn a b = Gt -> compareFn b a = Lt.
Hypothesis compare_trans_on :
  forall a b c, P a -> P b -> P c ->
    compareFn a b <> Gt -> compareFn b c <> Gt -> compareFn a c <> Gt.



End ArraySortOn.


(* ================================================================= *)
(** * Mood distribution *)

Lemma occurrences_cons (m : Mood) (entry : JournalEntry) (entries : list JournalEntry) :
  occurrences m (entry :: entries)
  = (if decide (mood entry = m) then 1 else 0) + occurrences m entries.
Proof. unfold occurrences. rewrite filter_cons. by case_decide. Qed.



Lemma occurrences_total (entries : list JournalEntry) :
  occurrences happy entries + occurrences neutral entries +
  occurrences sad entries + occurrences angry entries +
  occurrences sick entries = length entries.
Proof.
  induction entries as [|entry entries IH]; [done|].
  rewrite !occurrences_cons. cbn [length].
  destruct (mood entry); repeat case_decide; try done; lia.
Qed.

Lemma sumNat_Permutation (l l' : list nat) : l ≡ₚ l' -> sumNat l = sumNat l'.
Proof. unfold sumNat. induction 1; cbn; lia. Qed.








(* ================================================================= *)
(** * Weather correlation *)

(** The example of the specification: three Rain entries with the moods
    sad, sad, happy give the dominant mood sad with 67 percent. *)
Lemma correlation_threeRainyDays :
  WeatherCorrelation.correlation threeRainyDays
  = Return [ {| WeatherCorrelation.condition := lit "Rain";
                WeatherCorrelation.totalEntries := 3;
                WeatherCorrelation.dominantMood := sad;
                WeatherCorrelation.dominantPercentage := 67%float;
                WeatherCorrelation.averageTemp := 18%float |} ].
Proof. vm_compute. reflexivity. Qed.

(** C5.  The value of the correlation at forty Rain entries of which 23
    are happy and 17 sad: the dominant mood is happy and the reported
    percentage is 57, because the double [23 / 40] times 100 lies below
    57.5; the rounded value of [100 * 23 / 40] is 58, and the doubles give
    58 too when the product is taken first. *)
Theorem correlation_fortyRainyDays :
  WeatherCorrelation.correlation fortyRainyDays
  = Return [ {| WeatherCorrelation.condition := lit "Rain";
                WeatherCorrelation.totalEntries := 40;
                WeatherCorrelation.dominantMood := happy;
                WeatherCorrelation.dominantPercentage := 57%float;
                WeatherCorrelation.averageTemp := 18%float |} ] /\
  occurrences happy fortyRainyDays = 23 /\
  roundHalfUp (100 * 23) 40 = 58%Z /\
  Math_round
    (PrimFloat.div (PrimFloat.mul (Number_of_Z 100) (Number_of_Z 23)) (Number_of_Z 40))
  = 58%float /\
  PrimFloat.ltb
    (PrimFloat.mul (PrimFloat.div (Number_of_Z 23) (Number_of_Z 40)) (Number_of_Z 100))
    57.5%float = true.
Proof. repeat split; vm_compute; reflexivity. Qed.

(** For every group of fewer than 40 entries the double computation of
    the percentage is the rounded value of [100 * count / size]. *)
Lemma percentOf_exact_below_40 :
  forallb
    (fun size =>
       forallb
         (fun n =>
            PrimFloat.eqb (WeatherCorrelation.percentOf n size)
              (Number_of_Z (roundHalfUp (100 * Z.of_nat n) (Z.of_nat size))))
         (seq 0 (S size)))
    (seq 1 39)
  = true.
Proof. vm_compute. reflexivity. Qed.

Lemma moodCounts_fold (conditionEntries : list JournalEntry) (a b c d f : nat) :
  fold_left
    (fun moodCounts entry => WeatherCorrelation.increment (mood entry) moodCounts)
    conditionEntries [(happy, a); (neutral, b); (sad, c); (angry, d); (sick, f)]
  = [ (happy, a + occurrences happy conditionEntries);
      (neutral, b + occurrences neutral conditionEntries);
      (sad, c + occurrences sad conditionEntries);
      (angry, d + occurrences angry conditionEntries);
      (sick, f + occurrences sick conditionEntries) ].
Proof.
  revert a b c d f.
  induction conditionEntries as [|entry rest IH]; intros a b c d f.
  - unfold occurrences. cbn. by rewrite !Nat.add_0_r.
  - cbn [fold_left]. rewrite !occurrences_cons.
    destruct (mood entry); cbn;
      repeat case_bool_decide; try done; repeat case_decide; try done;
      rewrite IH; repeat (f_equal; try lia).
Qed.

(** [moodCounts] holds, for each mood, the number of entries of the group
    with that mood. *)
Lemma moodCounts_occurrences (conditionEntries : list JournalEntry) :
  WeatherCorrelation.countMoods conditionEntries
  = [ (happy, occurrences happy conditionEntries);
      (neutral, occurrences neutral conditionEntries);
      (sad, occurrences sad conditionEntries);
      (angry, occurrences angry conditionEntries);
      (sick, occurrences sick conditionEntries) ].
Proof. apply moodCounts_fold. Qed.

(** The dominant mood of a non-empty group has the highest count, and
    among the moods with that count it is the first of happy, neutral,
    sad, angry, sick. *)
Lemma dominant_highest_first (conditionEntries : list JournalEntry) :
  conditionEntries <> [] ->
  let state := WeatherCorrelation.dominant
                 (WeatherCorrelation.countMoods conditionEntries) in
  snd state = occurrences (fst state) conditionEntries /\
  (forall m, occurrences m conditionEntries <= snd state) /\
  (forall m, occurrences m conditionEntries = snd state ->
             Mood_index (fst state) <= Mood_index m).
Proof.
  intros Hne. rewrite moodCounts_occurrences.
  assert (Htotal := occurrences_total conditionEntries).
  assert (Hlen : length conditionEntries <> 0) by by destruct conditionEntries.
  unfold WeatherCorrelation.dominant. cbn [fold_left fst snd].
  repeat match goal with
         | |- context [(?x <? ?y)%nat] =>
             lazymatch x with
             | context [Nat.ltb] => fail
             | _ => destruct (Nat.ltb_spec x y); cbn [fst snd]
             end
         end;
    (split; [lia|split; intros m; destruct m; cbn [Mood_index]; lia]).
Qed.

(** ** The groups *)

Lemma hasOwn_keys (groups : WeatherCorrelation.Groups) (key : jsstring) :
  WeatherCorrelation.hasOwn groups key = true <-> key ∈ groups.*1.
Proof.
  unfold WeatherCorrelation.hasOwn. rewrite existsb_exists, list_elem_of_fmap.
  split.
  - intros (g & Hg & Hkey). apply bool_decide_eq_true in Hkey.
    exists g. split; [done|]. by apply list_elem_of_In.
  - intros (g & -> & Hg). exists g. split; [by apply list_elem_of_In|].
    by apply bool_decide_eq_true.
Qed.

Lemma push_keys (key : jsstring) (entry : JournalEntry)
    (groups : WeatherCorrelation.Groups) :
  (WeatherCorrelation.push key entry groups).*1 = groups.*1.
Proof.
  induction groups as [|[k es] groups IH]; [done|].
  cbn [WeatherCorrelation.push]. case_bool_decide; cbn; by rewrite ?IH.
Qed.

Lemma push_elem (key : jsstring) (entry : JournalEntry)
    (groups : WeatherCorrelation.Groups) (k : jsstring) (es : list JournalEntry) :
  NoDup groups.*1 ->
  (k, es) ∈ WeatherCorrelation.push key entry groups <->
  (k = key /\ exists es0, (key, es0) ∈ groups /\ es = es0 ++ [entry]) \/
  (k <> key /\ (k, es) ∈ groups).
Proof.
  induction groups as [|[k0 es0] groups IH]; intros Hnodup.
  - cbn. split; [by intros ?%elem_of_nil|].
    intros [(_ & ? & ?%elem_of_nil & _)|[_ ?%elem_of_nil]]; done.
  - cbn in Hnodup. apply NoDup_cons in Hnodup as [Hfresh Hnodup].
    assert (Hkeys : forall es1, (k0, es1) ∈ groups -> False).
    { intros es1 Hin. apply Hfresh, list_elem_of_fmap. by exists (k0, es1). }
    cbn [WeatherCorrelation.push]. case_bool_decide as Hk0.
    + subst k0. rewrite !elem_of_cons. split.
      * intros [Heq|Hin]; simplify_eq.
        -- left. split; [done|]. exists es0. split; [by left|done].
        -- right. split; [|by right]. intros ->. by eapply Hkeys.
      * intros [(-> & es1 & Hin & ->)|[Hne Hin]].
        -- left. apply elem_of_cons in Hin as [Heq|Hin]; simplify_eq; [done|].
           exfalso. by eapply Hkeys.
        -- right. destruct Hin as [Heq|Hin]; by simplify_eq.
    + rewrite elem_of_cons, (IH Hnodup). split.
      * intros [Heq|[(-> & es1 & Hin & ->)|[Hne Hin]]]; simplify_eq.
        -- right. split; [done|by left].
        -- left. split; [done|]. exists es1. split; [by right|done].
        -- right. split; [done|by right].
      * intros [(-> & es1 & Hin & ->)|[Hne Hin]].
        -- apply elem_of_cons in Hin as [Heq|Hin]; simplify_eq.
           right. left. split; [done|]. by exists es1.
        -- apply elem_of_cons in Hin as [Heq|Hin]; simplify_eq; [by left|].
           right. by right.
Qed.

Lemma push_fresh (key : jsstring) (entry : JournalEntry)
    (groups : WeatherCorrelation.Groups) :
  key ∉ groups.*1 ->
  WeatherCorrelation.push key entry (groups ++ [(key, [])])
  = groups ++ [(key, [entry])].
Proof.
  induction groups as [|[k es] groups IH]; intros Hfresh.
  - cbn. by rewrite bool_decide_eq_true_2.
  - cbn in Hfresh. apply not_elem_of_cons in Hfresh as [Hne Hfresh].
    cbn. rewrite bool_decide_eq_false_2 by done. by rewrite IH.
Qed.

Lemma withCondition_snoc (c : jsstring) (entries : list JournalEntry)
    (entry : JournalEntry) :
  withCondition c (entries ++ [entry])
  = withCondition c entries
    ++ (if decide (condition (weather entry) = c) then [entry] else []).
Proof.
  unfold withCondition. rewrite filter_app. f_equal.
Qed.

Lemma groupByCondition_snoc (entries : list JournalEntry) (entry : JournalEntry) :
  WeatherCorrelation.groupByCondition (entries ++ [entry])
  = bind (WeatherCorrelation.groupByCondition entries)
      (fun groups => WeatherCorrelation.addEntry groups entry).
Proof. unfold WeatherCorrelation.groupByCondition. by rewrite fold_left_app. Qed.

Lemma addEntry_wellGrouped (entries : list JournalEntry) (entry : JournalEntry)
    (groups groups' : WeatherCorrelation.Groups) :
  wellGrouped entries groups ->
  WeatherCorrelation.addEntry groups entry = Return groups' ->
  wellGrouped (entries ++ [entry]) groups'.
Proof.
  intros (Hnodup & Hgroups & Hall). unfold WeatherCorrelation.addEntry.
  set (c := condition (weather entry)).
  destruct (WeatherCorrelation.hasOwn groups c) eqn:Hown.
  - intros [= <-]. apply hasOwn_keys in Hown. split; [|split].
    + by rewrite push_keys.
    + intros k es Hin.
      apply push_elem in Hin as [(-> & es0 & Hin & ->)|[Hne Hin]]; [| |done].
      * split; [|by destruct es0].
        destruct (Hgroups _ _ Hin) as [-> _].
        rewrite withCondition_snoc. fold c. by rewrite decide_True.
      * destruct (Hgroups _ _ Hin) as [-> Hsome]. split; [|done].
        rewrite withCondition_snoc. fold c. rewrite decide_False by done.
        by rewrite app_nil_r.
    + intros e He. rewrite push_keys.
      apply elem_of_app in He as [He|He%list_elem_of_singleton]; [by apply Hall|].
      by subst e.
  - case_bool_decide; [done|]. intros [= <-].
    assert (Hfresh : c ∉ groups.*1).
    { intros Hin. apply hasOwn_keys in Hin. congruence. }
    assert (Hnone : withCondition c entries = []).
    { destruct (withCondition c entries) as [|e rest] eqn:Hf; [done|].
      assert (He : e ∈ withCondition c entries)
        by (rewrite Hf; apply list_elem_of_here).
      apply list_elem_of_filter in He as [Hc He].
      exfalso. apply Hfresh. rewrite <- Hc. by apply Hall. }
    rewrite push_fresh by done. split; [|split].
    + rewrite fmap_app. cbn. apply NoDup_app. split; [done|]. split.
      * by intros k Hk ->%list_elem_of_singleton.
      * apply NoDup_singleton.
    + intros k es Hin.
      apply elem_of_app in Hin as [Hin|Hin%list_elem_of_singleton].
      * destruct (Hgroups _ _ Hin) as [-> Hsome]. split; [|done].
        rewrite withCondition_snoc. fold c.
        rewrite decide_False; [by rewrite app_nil_r|].
        intros <-. apply Hfresh, list_elem_of_fmap.
        by exists (c, withCondition c entries).
      * simplify_eq. split; [|done].
        rewrite withCondition_snoc, Hnone. fold c. by rewrite decide_True.
    + intros e He. rewrite fmap_app. apply elem_of_app.
      apply elem_of_app in He as [He|He%list_elem_of_singleton]; [left; by apply Hall|].
      right. subst e. cbn. apply list_elem_of_here.
Qed.

Lemma groupByCondition_wellGrouped (entries : list JournalEntry)
    (groups : WeatherCorrelation.Groups) :
  WeatherCorrelation.groupByCondition entries = Return groups ->
  wellGrouped entries groups.
Proof.
  revert groups. induction entries as [|entry entries IH] using rev_ind; intros groups.
  - intros [= <-]. split; [constructor|].
    split; [by intros ? ? ?%elem_of_nil|by intros ? ?%elem_of_nil].
  - rewrite groupByCondition_snoc.
    destruct (WeatherCorrelation.groupByCondition entries) as [groups0|]; [|done].
    cbn [bind]. by apply addEntry_wellGrouped, IH.
Qed.

Lemma filter_partition_Permutation {A : Type} (f : A -> bool) (l : list A) :
  List.filter f l ++ List.filter (fun x => negb (f x)) l ≡ₚ l.
Proof.
  induction l as [|x l IH]; [done|]. cbn. destruct (f x); cbn.
  - by rewrite IH.
  - by rewrite <- Permutation_middle, IH.
Qed.

Lemma Object_entries_Permutation (groups : WeatherCorrelation.Groups) :
  WeatherCorrelation.Object_entries groups ≡ₚ groups.
Proof.
  unfold WeatherCorrelation.Object_entries.
  rewrite Array_sort_Permutation. apply filter_partition_Permutation.
Qed.

(** The computation throws only on a condition that names a property of
    [Object.prototype]. *)
Lemma correlation_returns (entries : list JournalEntry) :
  Forall (fun entry =>
            condition (weather entry) ∉ WeatherCorrelation.Object_prototype_keys)
    entries ->
  exists rows, WeatherCorrelation.correlation entries = Return rows.
Proof.
  intros Hkeys. unfold WeatherCorrelation.correlation.
  assert (Hgroups : exists groups,
             WeatherCorrelation.groupByCondition entries = Return groups).
  { induction entries as [|entry entries IH] using rev_ind; [by exists []|].
    apply Forall_app in Hkeys as [Hkeys Hentry].
    destruct (IH Hkeys) as [groups Hgroups].
    rewrite groupByCondition_snoc, Hgroups. cbn [bind].
    unfold WeatherCorrelation.addEntry.
    destruct (WeatherCorrelation.hasOwn _ _); [by eexists|].
    rewrite Forall_singleton in Hentry.
    rewrite bool_decide_eq_false_2 by done. by eexists. }
  destruct Hgroups as [groups ->]. by eexists.
Qed.

(** The rows of the correlation are the analyses of the non-empty
    groups of entries that share a weather condition. *)
Lemma correlation_rows (entries : list JournalEntry)
    (rows : list WeatherCorrelation.Correlation) :
  WeatherCorrelation.correlation entries = Return rows ->
  forall row,
    row ∈ rows <->
    exists c, withCondition c entries <> [] /\
              row = WeatherCorrelation.analyse (c, withCondition c entries).
Proof.
  unfold WeatherCorrelation.correlation.
  destruct (WeatherCorrelation.groupByCondition entries) as [groups|] eqn:Hgroups;
    [|done].
  apply groupByCondition_wellGrouped in Hgroups as (Hnodup & Hgroups & Hall).
  intros [= <-] row.
  rewrite Array_sort_Permutation, list_elem_of_fmap. split.
  - intros ([c es] & -> & Hin). rewrite Object_entries_Permutation in Hin.
    destruct (Hgroups _ _ Hin) as [-> Hsome]. by exists c.
  - intros (c & Hsome & ->).
    destruct (withCondition c entries) as [|entry rest] eqn:Hc; [done|].
    assert (Hentry : entry ∈ withCondition c entries)
      by (rewrite Hc; apply list_elem_of_here).
    apply list_elem_of_filter in Hentry as [Hcond Hentry].
    apply Hall in Hentry. rewrite Hcond in Hentry.
    apply list_elem_of_fmap in Hentry as ([c' es] & Hkey & Hin).
    cbn in Hkey. subst c'.
    destruct (Hgroups _ _ Hin) as [Hes _].
    exists (c, es). split; [by rewrite Hes, Hc|].
    by rewrite Object_entries_Permutation.
Qed.

(** What holds of every reported row: its group is the non-empty list of
    the entries with its condition; the dominant mood has the highest
    count in the group, the first of happy, neutral, sad, angry, sick
    among the moods with that count; the percentage and the average
    temperature are the double computations [percentOf] and [meanOf] on
    the dominant count, the sum of the temperatures and the size of the
    group. *)
Lemma correlation_row (entries : list JournalEntry)
    (rows : list WeatherCorrelation.Correlation) (row : WeatherCorrelation.Correlation) :
  WeatherCorrelation.correlation entries = Return rows ->
  row ∈ rows ->
  let group := withCondition (WeatherCorrelation.condition row) entries in
  let best := occurrences (WeatherCorrelation.dominantMood row) group in
  group <> [] /\
  WeatherCorrelation.totalEntries row = length group /\
  (forall m, occurrences m group <= best) /\
  (forall m, occurrences m group = best ->
             Mood_index (WeatherCorrelation.dominantMood row) <= Mood_index m) /\
  WeatherCorrelation.dominantPercentage row
    = WeatherCorrelation.percentOf best (length group) /\
  WeatherCorrelation.averageTemp row
    = WeatherCorrelation.meanOf (WeatherCorrelation.sumTemp group) (length group).
Proof.
  intros Hrows Hrow.
  apply (correlation_rows _ _ Hrows) in Hrow as (c & Hsome & ->).
  destruct (dominant_highest_first _ Hsome) as (Hbest & Hmax & Hfirst).
  unfold WeatherCorrelation.analyse.
  destruct (WeatherCorrelation.dominant _) as [m h].
  cbn [fst snd] in *. cbn. subst h. by repeat split.
Qed.

(* ================================================================= *)
(** * The functions on small inputs *)

Example trim_example : trim (lit "  hello world  ") = lit "hello world".
Proof. reflexivity. Qed.

Example trim_blank_example : trim ([9; 32; 160; 10]%N) = [].
Proof. reflexivity. Qed.

Example getJournalEntries_example :
  getJournalEntries (Some (Json threeRainyDays))
  = Return [ entryAt 1743638400000 happy (lit "puddles") (rain None);
             entryAt 1743552000000 sad (lit "wet again") (rain None);
             entryAt 1743465600000 sad (lit "wet") (rain None) ].
Proof. reflexivity. Qed.

Example filterEntriesByTimeRange_example :
  filterEntriesByTimeRange (1743465600000 + 7 * msInDay + 1) threeRainyDays week
  = [ entryAt 1743552000000 sad (lit "wet again") (rain None);
      entryAt 1743638400000 happy (lit "puddles") (rain None) ] /\
  filterEntriesByTimeRange (1743465600000 + 7 * msInDay) threeRainyDays week
  = threeRainyDays.
Proof. split; reflexivity. Qed.

Example moodStats_example :
  map (fun row => (MoodTrends.mood row, MoodTrends.count row,
                   Math_round (MoodTrends.percentage row)))
    (MoodTrends.moodStats threeRainyDays)
  = [ (sad, 2, 67%float); (happy, 1, 33%float); (neutral, 0, 0%float);
      (angry, 0, 0%float); (sick, 0, 0%float) ].
Proof. vm_compute. reflexivity. Qed.

Example exportJournalEntries_example :
  exists file,
    exportJournalEntries emptyArray (lit "2025-04-03") threeRainyDays csv
    = Return file /\
    fileName file = lit "moodmate-journal-2025-04-03.csv" /\
    splitLines (dataStr file)
    = [ headerLine;
        quoted (lit "April 1, 2025") ++ lit "," ++ quoted (lit "sad") ++ lit "," ++
        quoted (lit "wet") ++ lit "," ++ quoted (lit "18" ++ [DEGREE] ++ lit "C") ++
        lit "," ++ quoted (lit "Rain") ++ lit "," ++ quoted (lit "Unknown");
        quoted (lit "April 1, 2025") ++ lit "," ++ quoted (lit "sad") ++ lit "," ++
        quoted (lit "wet again") ++ lit "," ++ quoted (lit "18" ++ [DEGREE] ++ lit "C") ++
        lit "," ++ quoted (lit "Rain") ++ lit "," ++ quoted (lit "Unknown");
        quoted (lit "April 1, 2025") ++ lit "," ++ quoted (lit "happy") ++ lit "," ++
        quoted (lit "puddles") ++ lit "," ++ quoted (lit "18" ++ [DEGREE] ++ lit "C") ++
        lit "," ++ quoted (lit "Rain") ++ lit "," ++ quoted (lit "Unknown") ].
Proof. eexists. repeat split; vm_compute; reflexivity. Qed.

Example correlation_prototype_key_example :
  WeatherCorrelation.correlation
    [ entryAt 1743465600000 sad (lit "odd")
        {| temp := 18; condition := lit "constructor"; icon := lit "10d";
           location := None |} ]
  = Throw TypeError.
Proof. vm_compute. reflexivity. Qed.

(* ================================================================= *)
(** * Further properties of the journal store *)

(** On a storage that accepts the write [saveJournalEntry] is the
    function of the claims; on one that refuses it, the error is thrown
    and the store is as it was. *)
Lemma StorageQuota_saveJournalEntry_accepted (dateFormat_long : Z -> jsstring)
    (now : Z) (entryData : EntryData) (store : localStorage) :
  StorageQuota.saveJournalEntry dateFormat_long None now entryData store
  = saveJournalEntry dateFormat_long now entryData store.
Proof.
  unfold StorageQuota.saveJournalEntry, saveJournalEntry.
  by destruct (getJournalEntries store).
Qed.

Lemma StorageQuota_handleSaveEntry_accepted (dateFormat_long : Z -> jsstring)
    (now : Z) (page : HomePage.PageState) (store : localStorage) :
  StorageQuota.handleSaveEntry dateFormat_long None now page store
  = HomePage.handleSaveEntry dateFormat_long now page store.
Proof.
  unfold StorageQuota.handleSaveEntry, HomePage.handleSaveEntry.
  destruct (HomePage.selectedMood page); [|done].
  destruct (HomePage.weather page); [|done].
  by rewrite StorageQuota_saveJournalEntry_accepted.
Qed.

Lemma StorageQuota_saveJournalEntry_refused (dateFormat_long : Z -> jsstring)
    (error : JsError) (now : Z) (entryData : EntryData) (store : localStorage) :
  StorageQuota.saveJournalEntry dateFormat_long (Some error) now entryData store
  = (Throw error, store).
Proof.
  unfold StorageQuota.saveJournalEntry. by rewrite getJournalEntries_persisted.
Qed.

Lemma Array_sort_sorted {A : Type} (compareFn : A -> A -> comparison) (l : list A) :
  StronglySorted (fun a b => compareFn a b <> Gt) l -> Array_sort compareFn l = l.
Proof.
  induction 1 as [|x l Hl IH Hx]; [done|].
  cbn [Array_sort foldr]. fold (Array_sort compareFn l). rewrite IH.
  destruct l as [|y l]; [done|].
  apply Forall_cons in Hx as [Hxy _]. cbn [insert].
  by destruct (compareFn x y).
Qed.

Lemma newestFirst_not_Gt (a b : JournalEntry) :
  newestFirst a b <> Gt <-> (timestamp b <= timestamp a)%Z.
Proof. unfold newestFirst. rewrite signZ_not_Gt. lia. Qed.

Lemma Array_sort_newestFirst_idemp (entries : list JournalEntry) :
  Array_sort newestFirst (Array_sort newestFirst entries)
  = Array_sort newestFirst entries.
Proof.
  apply Array_sort_sorted.
  eapply StronglySorted_weaken; [|apply newestFirst_sorted].
  intros a b. by rewrite newestFirst_not_Gt.
Qed.

Lemma insert_newestFirst_split (x : JournalEntry) (l : list JournalEntry) :
  StronglySorted (fun a b => (timestamp b <= timestamp a)%Z) l ->
  exists newer older,
    l = newer ++ older /\
    insert newestFirst x l = newer ++ x :: older /\
    Forall (fun e => (timestamp x < timestamp e)%Z) newer /\
    Forall (fun e => (timestamp e <= timestamp x)%Z) older.
Proof.
  induction 1 as [|y l Hl IH Hy].
  - exists [], []. by repeat split.
  - cbn [insert]. destruct (newestFirst x y) eqn:Hxy.
    + exists [], (y :: l). repeat split; [done|]. 
      assert (Hle : (timestamp y <= timestamp x)%Z).
      { apply newestFirst_not_Gt. by rewrite Hxy. }
      constructor; [done|]. eapply Forall_impl; [exact Hy|]. cbn. lia.
    + exists [], (y :: l). repeat split; [done|].
      assert (Hle : (timestamp y <= timestamp x)%Z).
      { apply newestFirst_not_Gt. by rewrite Hxy. }
      constructor; [done|]. eapply Forall_impl; [exact Hy|]. cbn. lia.
    + destruct IH as (newer & older & -> & -> & Hnewer & Holder).
      exists (y :: newer), older. repeat split; [|done].
      constructor; [|done].
      unfold newestFirst in Hxy. apply signZ_Gt in Hxy. lia.
Qed.

(** The listing after a save whose write is accepted. *)
Lemma save_then_list_accepted (dateFormat_long : Z -> jsstring) (now : Z)
    (entryData : EntryData) (store : localStorage) :
  exists newEntry newer older,
    fst (saveJournalEntry dateFormat_long now entryData store) = Return newEntry /\
    getJournalEntries store = Return (newer ++ older) /\
    getJournalEntries (snd (saveJournalEntry dateFormat_long now entryData store))
    = Return (newer ++ newEntry :: older) /\
    Forall (fun e => (ed_date entryData < timestamp e)%Z) newer /\
    Forall (fun e => (timestamp e <= ed_date entryData)%Z) older /\
    timestamp newEntry = ed_date entryData /\
    mood newEntry = ed_mood entryData /\
    note newEntry = ed_note entryData /\
    weather newEntry = ed_weather entryData.
Proof.
  destruct (saveJournalEntry_result dateFormat_long now entryData store)
    as (e & -> & _ & _ & Hmood & Hnote & Hweather & Htime).
  destruct (insert_newestFirst_split e _ (newestFirst_sorted (persisted store)))
    as (newer & older & Hsplit & Hinsert & Hnewer & Holder).
  exists e, newer, older. rewrite <- Htime.
  rewrite !getJournalEntries_persisted. cbn [fst snd persisted].
  cbn [Array_sort foldr]. fold (Array_sort newestFirst (Array_sort newestFirst (persisted store))).
  rewrite Array_sort_newestFirst_idemp, Hinsert, Hsplit.
  by repeat split.
Qed.

(** X1.  Round trip of save and list.  When the storage accepts the
    write, the save returns the new entry and the listing afterwards is
    the former listing with the new entry put in, behind the entries with
    a later timestamp and in front of those with the same or an earlier
    one; the new entry carries the note, mood, weather and date it was
    saved with.  When the storage refuses the write, the save throws the
    error of the storage and the store is as it was. *)
Theorem save_then_list (dateFormat_long : Z -> jsstring)
    (refused : option JsError) (now : Z)
    (entryData : EntryData) (store : localStorage) :
  let result :=
    StorageQuota.saveJournalEntry dateFormat_long refused now entryData store in
  match refused with
  | None =>
      exists newEntry newer older,
        fst result = Return newEntry /\
        getJournalEntries store = Return (newer ++ older) /\
        getJournalEntries (snd result) = Return (newer ++ newEntry :: older) /\
        Forall (fun e => (ed_date entryData < timestamp e)%Z) newer /\
        Forall (fun e => (timestamp e <= ed_date entryData)%Z) older /\
        timestamp newEntry = ed_date entryData /\
        mood newEntry = ed_mood entryData /\
        note newEntry = ed_note entryData /\
        weather newEntry = ed_weather entryData
  | Some error => result = (Throw error, store)
  end.
Proof.
  destruct refused as [error|]; cbv zeta.
  - apply StorageQuota_saveJournalEntry_refused.
  - rewrite StorageQuota_saveJournalEntry_accepted.
    apply save_then_list_accepted.
Qed.

(** X2.  A save into a store whose key is absent, whose text is empty or
    whose text does not parse: when the storage accepts the write, the
    store holds exactly the new entry afterwards and what was there is
    dropped; when the storage refuses the write, the save throws and the
    unreadable text stays. *)
Theorem save_over_unreadable_store (dateFormat_long : Z -> jsstring)
    (refused : option JsError) (now : Z) (entryData : EntryData) :
  Forall
    (fun store =>
       match refused with
       | None =>
           exists newEntry,
             note newEntry = ed_note entryData /\
             StorageQuota.saveJournalEntry dateFormat_long refused now entryData store
             = (Return newEntry, Some (Json [newEntry]))
       | Some error =>
           StorageQuota.saveJournalEntry dateFormat_long refused now entryData store
           = (Throw error, store)
       end)
    [None; Some Blank; Some Malformed].
Proof.
  destruct refused as [error|].
  - repeat (constructor; [reflexivity|]). constructor.
  - repeat (constructor; [eexists; split; [|reflexivity]; reflexivity|]). constructor.
Qed.

Lemma lit_inj (s s' : string) : lit s = lit s' -> s = s'.
Proof.
  unfold lit. intros H.
  rewrite <- (string_of_list_ascii_of_string s), <- (string_of_list_ascii_of_string s').
  f_equal. revert H.
  generalize (list_ascii_of_string s) (list_ascii_of_string s'). intros l.
  induction l as [|a l IH]; intros [|a' l'] H; try done.
  cbn in H. injection H as Ha Hl. f_equal; [|by apply IH].
  by rewrite <- (ascii_N_embedding a), <- (ascii_N_embedding a'), Ha.
Qed.

(** Distinct integers print differently. *)
Lemma Number_toString_inj (a b : Z) : Number_toString a = Number_toString b -> a = b.
Proof.
  unfold Number_toString. intros H. apply lit_inj in H.
  apply DecimalZ.to_int_inj.
  assert (Hgood : forall z, Z.to_int z <> Decimal.Pos Decimal.Nil /\
                            Z.to_int z <> Decimal.Neg Decimal.Nil).
  { intros [|p|p]; cbn; split; try discriminate;
      intros [= Hp]; by apply DecimalPos.Unsigned.to_uint_nonnil in Hp. }
  assert (Hparse : forall z,
             NilZero.int_of_string (NilZero.string_of_int (Z.to_int z))
             = Some (Z.to_int z)).
  { intros z. apply NilZero.isi; apply Hgood. }
  apply (f_equal NilZero.int_of_string) in H.
  rewrite !Hparse in H. by injection H.
Qed.

Lemma saveAll_result (dateFormat_long : Z -> jsstring) (stamp : nat -> Z)
    (samples : list EntryData) (i : nat) (store : localStorage) :
  fst (saveAll dateFormat_long stamp i samples store) = Return tt /\
  length (persisted (snd (saveAll dateFormat_long stamp i samples store)))
  = length samples + length (persisted store) /\
  persisted store ⊆+ persisted (snd (saveAll dateFormat_long stamp i samples store)) /\
  (NoDup (id <$> persisted store) ->
   NoDup (map stamp (seq i (length samples))) ->
   Forall (fun k => Number_toString (stamp k) ∉ id <$> persisted store)
     (seq i (length samples)) ->
   NoDup (id <$> persisted (snd (saveAll dateFormat_long stamp i samples store)))).
Proof.
  revert i store. induction samples as [|sample samples IH]; intros i store.
  - cbn. by repeat split.
  - cbn [saveAll].
    destruct (saveJournalEntry_result dateFormat_long (stamp i) sample store)
      as (e & Hsave & Hid & _).
    rewrite Hsave.
    destruct (IH (S i) (Some (Json (e :: Array_sort newestFirst (persisted store)))))
      as (Hfst & Hlen & Hsub & Hnodup).
    cbn [persisted] in *. split; [done|]. split; [|split].
    + rewrite Hlen. cbn [length]. rewrite Array_sort_length. lia.
    + etrans; [|exact Hsub]. apply submseteq_cons_r. left.
      by rewrite Array_sort_Permutation.
    + cbn [length seq map]. intros Hstore Hstamps Hfresh.
      apply NoDup_cons in Hstamps as [Hi Hstamps].
      apply Forall_cons in Hfresh as [Hfresh_i Hfresh].
      apply Hnodup; [|done|].
      * rewrite fmap_cons, Hid. apply NoDup_cons.
        by rewrite Array_sort_Permutation.
      * rewrite Forall_forall in Hfresh. apply Forall_forall. intros k Hk.
        rewrite fmap_cons, Hid, Array_sort_Permutation.
        apply not_elem_of_cons. split; [|by apply Hfresh].
        intros Heq%Number_toString_inj. apply Hi.
        rewrite <- Heq. apply list_elem_of_fmap. by exists k.
Qed.

(** X3.  When the six saves of [addSampleEntries] read six different
    milliseconds, none of which is an id of the store yet, the ids of the
    store stay pairwise distinct. *)
Theorem addSampleEntries_distinct_readings (dateFormat_long : Z -> jsstring)
    (now today : Z) (stamp : nat -> Z) (store : localStorage) :
  NoDup (id <$> persisted store) ->
  NoDup (map stamp (seq 0 6)) ->
  Forall (fun k => Number_toString (stamp k) ∉ id <$> persisted store) (seq 0 6) ->
  NoDup (id <$> persisted
           (snd (addSampleEntries dateFormat_long now today stamp store))).
Proof.
  intros Hstore Hstamps Hfresh. unfold addSampleEntries.
  by apply (saveAll_result dateFormat_long stamp (sampleEntries now today) 0 store).
Qed.

Lemma addSampleEntries_distinct_readings_example :
  let stamp := fun k : nat => (1745000000000 + Z.of_nat k)%Z in
  NoDup (id <$> persisted None) /\
  NoDup (map stamp (seq 0 6)) /\
  Forall (fun k => Number_toString (stamp k) ∉ id <$> persisted None) (seq 0 6) /\
  NoDup (id <$> persisted
           (snd (addSampleEntries aprilFirst 1745000000000 1745000000000 stamp None))).
Proof.
  intros stamp.
  assert (H1 : NoDup (id <$> persisted None)) by constructor.
  assert (H2 : NoDup (map stamp (seq 0 6))).
  { apply (bool_decide_unpack (NoDup (map stamp (seq 0 6)))). vm_compute. exact I. }
  assert (H3 : Forall (fun k => Number_toString (stamp k) ∉ id <$> persisted None)
                 (seq 0 6)).
  { apply Forall_forall. intros k _. cbn. apply not_elem_of_nil. }
  split; [exact H1|]. split; [exact H2|]. split; [exact H3|].
  exact (addSampleEntries_distinct_readings aprilFirst 1745000000000 1745000000000
           stamp None H1 H2 H3).
Defined.

(** The loop of the sample entries on a storage that accepts the
    writes, one that refuses a write, and any storage. *)
Lemma StorageQuota_saveAll_accepted (dateFormat_long : Z -> jsstring)
    (refused : nat -> option JsError) (stamp : nat -> Z)
    (samples : list EntryData) (i : nat) (store : localStorage) :
  (forall j, j < length samples -> refused (i + j) = None) ->
  StorageQuota.saveAll dateFormat_long refused stamp i samples store
  = saveAll dateFormat_long stamp i samples store.
Proof.
  revert i store. induction samples as [|sample samples IH]; intros i store Hok;
    [done|].
  cbn [StorageQuota.saveAll saveAll].
  assert (Hi : refused i = None).
  { rewrite <- (Nat.add_0_r i). apply Hok. cbn. lia. }
  rewrite Hi, StorageQuota_saveJournalEntry_accepted.
  destruct (saveJournalEntry _ _ _ _) as [[e|error] store']; [|done].
  apply IH. intros j Hj. replace (S i + j) with (i + S j) by lia.
  apply Hok. cbn. lia.
Qed.

Lemma StorageQuota_saveAll_refused (dateFormat_long : Z -> jsstring)
    (refused : nat -> option JsError) (stamp : nat -> Z)
    (samples : list EntryData) (i k : nat) (error : JsError)
    (store : localStorage) :
  k < length samples ->
  (forall j, j < k -> refused (i + j) = None) ->
  refused (i + k) = Some error ->
  StorageQuota.saveAll dateFormat_long refused stamp i samples store
  = (Throw error, snd (saveAll dateFormat_long stamp i (take k samples) store)).
Proof.
  revert i k store.
  induction samples as [|sample samples IH]; intros i k store Hk Hok Herror;
    [cbn in Hk; lia|].
  cbn [StorageQuota.saveAll]. destruct k as [|k].
  - rewrite Nat.add_0_r in Herror.
    by rewrite Herror, StorageQuota_saveJournalEntry_refused.
  - assert (Hi : refused i = None).
    { rewrite <- (Nat.add_0_r i). apply Hok. lia. }
    rewrite Hi, StorageQuota_saveJournalEntry_accepted.
    cbn [take saveAll].
    destruct (saveJournalEntry_result dateFormat_long (stamp i) sample store)
      as (e & -> & _).
    apply IH.
    + cbn in Hk. lia.
    + intros j Hj. replace (S i + j) with (i + S j) by lia. apply Hok. lia.
    + by replace (S i + k) with (i + S k) by lia.
Qed.

Lemma StorageQuota_saveAll_keeps (dateFormat_long : Z -> jsstring)
    (refused : nat -> option JsError) (stamp : nat -> Z)
    (samples : list EntryData) (i : nat) (store : localStorage) :
  persisted store
    ⊆+ persisted (snd (StorageQuota.saveAll dateFormat_long refused stamp i
                         samples store)).
Proof.
  revert i store. induction samples as [|sample samples IH]; intros i store;
    [done|].
  cbn [StorageQuota.saveAll]. destruct (refused i) as [error|].
  - by rewrite StorageQuota_saveJournalEntry_refused.
  - rewrite StorageQuota_saveJournalEntry_accepted.
    destruct (saveJournalEntry_result dateFormat_long (stamp i) sample store)
      as (e & -> & _).
    etrans; [|apply IH]. cbn [persisted]. apply submseteq_cons_r. left.
    by rewrite Array_sort_Permutation.
Qed.

(** X4.  [addSampleEntries] keeps every entry the store held, on any
    storage.  When the storage accepts the six writes it succeeds and the
    store holds six entries more; when a write is refused the loop stops
    there: it throws the error of that write and the store holds the
    entries of the saves before it, as many more as writes were
    accepted. *)
Theorem addSampleEntries_until_refused (dateFormat_long : Z -> jsstring)
    (now today : Z) (refused : nat -> option JsError) (stamp : nat -> Z)
    (store : localStorage) :
  let result :=
    StorageQuota.addSampleEntries dateFormat_long now today refused stamp store in
  persisted store ⊆+ persisted (snd result) /\
  ((forall i, i < 6 -> refused i = None) ->
   fst result = Return tt /\
   length (persisted (snd result)) = 6 + length (persisted store)) /\
  (forall k error,
     k < 6 -> (forall i, i < k -> refused i = None) -> refused k = Some error ->
     fst result = Throw error /\
     length (persisted (snd result)) = k + length (persisted store)).
Proof.
  cbv zeta. unfold StorageQuota.addSampleEntries.
  split; [apply StorageQuota_saveAll_keeps|]. split.
  - intros Hok. rewrite StorageQuota_saveAll_accepted by exact Hok.
    destruct (saveAll_result dateFormat_long stamp (sampleEntries now today) 0 store)
      as (Hfst & Hlen & _).
    by split.
  - intros k error Hk Hok Herror.
    rewrite (StorageQuota_saveAll_refused _ _ _ _ 0 k error) by done.
    split; [done|]. cbn [snd].
    destruct (saveAll_result dateFormat_long stamp
                (take k (sampleEntries now today)) 0 store) as (_ & -> & _).
    rewrite length_take. cbn [sampleEntries length]. lia.
Qed.

(* ================================================================= *)
(** * Further properties of the time-range filter *)

Lemma filter_none {A : Type} (P : A -> Prop) `{!forall x, Decision (P x)} (l : list A) :
  Forall (fun x => ~ P x) l -> filter P l = [].
Proof.
  induction 1 as [|x l Hx _ IH]; [done|]. by rewrite filter_cons_False.
Qed.

Lemma filter_since_prefix (cutoff : Z) (l : list JournalEntry) :
  StronglySorted (fun a b => (timestamp b <= timestamp a)%Z) l ->
  filter (fun entry => (cutoff <= timestamp entry)%Z) l `prefix_of` l.
Proof.
  induction 1 as [|x l Hl IH Hx]; [done|].
  destruct (decide (cutoff <= timestamp x)%Z) as [Hkeep|Hdrop].
  - rewrite filter_cons_True by done. by apply prefix_cons.
  - rewrite filter_cons_False by done. rewrite filter_none; [apply prefix_nil|].
    eapply Forall_impl; [exact Hx|]. cbn. lia.
Qed.

(** X5.  On the listing that [getJournalEntries] returns, every time
    range keeps an initial segment: the kept entries are the first ones of
    the listing, and none is kept behind one that is dropped. *)
Theorem listing_filter_prefix (store : localStorage) (now : Z) (range : TimeRange) :
  exists listing,
    getJournalEntries store = Return listing /\
    filterEntriesByTimeRange now listing range `prefix_of` listing.
Proof.
  exists (Array_sort newestFirst (persisted store)).
  split; [apply getJournalEntries_persisted|].
  destruct range; cbn [filterEntriesByTimeRange]; [| |done];
    apply filter_since_prefix, newestFirst_sorted.
Qed.

Lemma filter_since_since (c1 c2 : Z) (l : list JournalEntry) :
  filter (fun entry => (c1 <= timestamp entry)%Z)
    (filter (fun entry => (c2 <= timestamp entry)%Z) l)
  = filter (fun entry => (Z.max c1 c2 <= timestamp entry)%Z) l.
Proof.
  rewrite list_filter_filter. apply list_filter_iff. intros x. lia.
Qed.

(** X6.  At one current time the filters commute and each is idempotent;
    the week filter applied to the result of the month filter gives the
    result of the week filter. *)
Theorem filter_compose (now : Z) (entries : list JournalEntry) (r1 r2 : TimeRange) :
  filterEntriesByTimeRange now (filterEntriesByTimeRange now entries r1) r2
  = filterEntriesByTimeRange now (filterEntriesByTimeRange now entries r2) r1 /\
  filterEntriesByTimeRange now (filterEntriesByTimeRange now entries r1) r1
  = filterEntriesByTimeRange now entries r1 /\
  filterEntriesByTimeRange now (filterEntriesByTimeRange now entries month) week
  = filterEntriesByTimeRange now entries week.
Proof.
  split; [|split].
  - destruct r1, r2; cbn [filterEntriesByTimeRange]; try done;
      rewrite !filter_since_since; apply list_filter_iff; intros x; lia.
  - destruct r1; cbn [filterEntriesByTimeRange]; try done;
      rewrite filter_since_since; apply list_filter_iff; intros x; lia.
  - cbn [filterEntriesByTimeRange]. rewrite filter_since_since.
    apply list_filter_iff. intros x. unfold msInDay. lia.
Qed.

(** X7.  Entries only drop out as time passes: what a range keeps at a
    later current time is a subsequence of what it keeps at an earlier
    one. *)
Theorem filter_later_keeps_less (now later : Z) (entries : list JournalEntry)
    (range : TimeRange) :
  (now <= later)%Z ->
  filterEntriesByTimeRange later entries range
    `sublist_of` filterEntriesByTimeRange now entries range.
Proof.
  intros Hlater. destruct range; cbn [filterEntriesByTimeRange]; [| |done].
  - rewrite <- (list_filter_filter_l
      (fun entry => (later - 7 * msInDay <= timestamp entry)%Z)
      (fun entry => (now - 7 * msInDay <= timestamp entry)%Z)) by (intros; lia).
    apply sublist_filter.
  - rewrite <- (list_filter_filter_l
      (fun entry => (later - 30 * msInDay <= timestamp entry)%Z)
      (fun entry => (now - 30 * msInDay <= timestamp entry)%Z)) by (intros; lia).
    apply sublist_filter.
Qed.

Lemma filter_later_keeps_less_example :
  (1743465600000 <= 1744243200000)%Z /\
  filterEntriesByTimeRange 1744243200000 threeRainyDays week
    `sublist_of` filterEntriesByTimeRange 1743465600000 threeRainyDays week.
Proof.
  assert (H : (1743465600000 <= 1744243200000)%Z) by (vm_compute; discriminate).
  split; [exact H|].
  exact (filter_later_keeps_less 1743465600000 1744243200000 threeRainyDays week H).
Defined.

(* ================================================================= *)
(** * Further properties of the export *)

Lemma splitLines_join (rows : list jsstring) :
  rows <> [] ->
  Forall (fun row => lineFeeds row = 0) rows ->
  splitLines (join [LF] rows) = rows.
Proof.
  intros Hne Hrows. revert Hne.
  induction Hrows as [|row rows Hrow Hrows IH]; [done|]. intros _.
  destruct rows as [|row' rows].
  - cbn [join]. by apply splitLines_no_lineFeed.
  - change (join [LF] (row :: row' :: rows))
      with (row ++ [LF] ++ join [LF] (row' :: rows)).
    rewrite splitLines_first_line by done. by rewrite IH.
Qed.

(** X8.  The CSV export of entries whose date, note, weather condition
    and location hold no line feed has the header as its first line and
    then one line for each entry, the rows of the entries in input
    order. *)
Theorem export_csv_line_per_entry (JSON_stringify_pretty : list JournalEntry -> jsstring)
    (currentDate : jsstring) (entry : JournalEntry) (entries : list JournalEntry) :
  Forall (fun e =>
            lineFeeds (date e) + lineFeeds (note e) +
            lineFeeds (condition (weather e)) +
            lineFeeds (default [] (location (weather e))) = 0)
    (entry :: entries) ->
  exists file,
    exportJournalEntries JSON_stringify_pretty currentDate (entry :: entries) csv
    = Return file /\
    splitLines (dataStr file) = headerLine :: map csvRow (entry :: entries).
Proof.
  intros Hfields. rewrite exportJournalEntries_csv.
  eexists. split; [reflexivity|]. cbn [dataStr].
  rewrite splitLines_first_line by done.
  rewrite splitLines_join; [done|done|].
  apply Forall_fmap. eapply Forall_impl; [exact Hfields|].
  intros e He. unfold compose. by rewrite lineFeeds_csvRow.
Qed.

Lemma export_csv_line_per_entry_example :
  Forall (fun e =>
            lineFeeds (date e) + lineFeeds (note e) +
            lineFeeds (condition (weather e)) +
            lineFeeds (default [] (location (weather e))) = 0)
    threeRainyDays /\
  exists file,
    exportJournalEntries emptyArray (lit "2025-04-03") threeRainyDays csv
    = Return file /\
    splitLines (dataStr file) = headerLine :: map csvRow threeRainyDays.
Proof.
  assert (H : Forall (fun e =>
            lineFeeds (date e) + lineFeeds (note e) +
            lineFeeds (condition (weather e)) +
            lineFeeds (default [] (location (weather e))) = 0)
    threeRainyDays) by (repeat constructor).
  split; [exact H|].
  exact (export_csv_line_per_entry emptyArray (lit "2025-04-03") _ _ H).
Defined.

Lemma doubleQuotes_quoteFree (s : jsstring) : quoteFree s -> doubleQuotes s = s.
Proof.
  unfold quoteFree, doubleQuotes. induction s as [|c s IH]; [done|].
  intros [Hc Hs]%not_elem_of_cons. cbn.
  destruct (N.eqb_spec c QUOTE) as [->|_]; [done|]. cbn. by rewrite IH.
Qed.

Lemma readField_doubleQuotes (s rest : jsstring) :
  head rest <> Some QUOTE ->
  readField (doubleQuotes s ++ QUOTE :: rest) = Some (s, rest).
Proof.
  intros Hrest. induction s as [|c s IH].
  - cbn. destruct rest as [|d rest]; [done|].
    destruct (N.eqb_spec d QUOTE) as [->|_]; [by destruct Hrest|done].
  - unfold doubleQuotes in *. cbn [flat_map].
    destruct (N.eqb_spec c QUOTE) as [->|Hc].
    + cbn. cbn in IH. by rewrite IH.
    + cbn. rewrite (proj2 (N.eqb_neq c QUOTE) Hc). cbn in IH. by rewrite IH.
Qed.

Lemma readFields_join (fields : list jsstring) (fuel : nat) :
  fields <> [] -> length fields <= fuel ->
  readFields fuel (join (lit ",") (map (fun f => quoted (doubleQuotes f)) fields))
  = Some fields.
Proof.
  revert fuel. induction fields as [|f fields IH]; [done|].
  intros fuel _ Hfuel. destruct fuel as [|fuel]; [cbn in Hfuel; lia|].
  destruct fields as [|g fields].
  - cbn [map join]. unfold quoted. cbn [app readFields].
    change (QUOTE =? QUOTE)%N with true. cbn match.
    change (doubleQuotes f ++ [QUOTE]) with (doubleQuotes f ++ QUOTE :: []).
    by rewrite readField_doubleQuotes.
  - cbn [map join]. unfold quoted at 1. cbn [app readFields].
    change (QUOTE =? QUOTE)%N with true. cbn match.
    rewrite <- app_assoc. cbn [app].
    change (lit ",") with [COMMA]. cbn [app].
    rewrite readField_doubleQuotes by done.
    change (COMMA =? COMMA)%N with true. cbn match.
    change [COMMA] with (lit ",") in IH.
    rewrite IH; [done|done|]. cbn in *. lia.
Qed.

Lemma join_quoted_length (fields : list jsstring) :
  length fields
  <= length (join (lit ",") (map (fun f => quoted (doubleQuotes f)) fields)).
Proof.
  induction fields as [|f fields IH]; [done|].
  destruct fields as [|g fields].
  - cbn [map join]. unfold quoted. rewrite !length_app. cbn. lia.
  - cbn [map join length] in *. unfold quoted at 1. rewrite !length_app. cbn in *. lia.
Qed.

Lemma quoteFree_digits (d : Decimal.uint) :
  quoteFree (lit (NilEmpty.string_of_uint d)).
Proof.
  unfold quoteFree.
  induction d; cbn; unfold lit in *; cbn;
    [apply not_elem_of_nil|apply not_elem_of_cons; split; [discriminate|done]..].
Qed.

Lemma quoteFree_Number_toString (z : Z) : quoteFree (Number_toString z).
Proof.
  unfold Number_toString, quoteFree.
  destruct (Z.to_int z) as [d|d]; cbn.
  - destruct d; try apply (quoteFree_digits (_ d)).
    unfold lit. cbn. apply not_elem_of_cons. split; [discriminate|apply not_elem_of_nil].
  - unfold lit. cbn. apply not_elem_of_cons. split; [discriminate|].
    destruct d; try apply (quoteFree_digits (_ d)).
    cbn. apply not_elem_of_cons. split; [discriminate|apply not_elem_of_nil].
Qed.

(** X9.  Round trip of a CSV row: when the date, the weather condition
    and the location of an entry hold no double quote, a reader of quoted
    fields (a double quote inside a field written twice) gets back the
    six column values from the row, whatever the note contains. *)
Theorem csvRow_reads_back (entry : JournalEntry) :
  quoteFree (date entry) ->
  quoteFree (condition (weather entry)) ->
  quoteFree (or_default (location (weather entry)) (lit "Unknown")) ->
  readRow (csvRow entry) = Some (columns entry).
Proof.
  intros Hdate Hcondition Hlocation.
  assert (Hrow : csvRow entry
            = join (lit ",") (map (fun f => quoted (doubleQuotes f)) (columns entry))).
  { unfold csvRow, csvFields, columns. cbn [map].
    rewrite (doubleQuotes_quoteFree (date entry)) by done.
    rewrite (doubleQuotes_quoteFree (condition (weather entry))) by done.
    rewrite (doubleQuotes_quoteFree (or_default _ _)) by done.
    rewrite (doubleQuotes_quoteFree (Mood_string _)).
    2:{ unfold quoteFree. destruct (mood entry);
          apply (bool_decide_unpack _); vm_compute; exact I. }
    rewrite (doubleQuotes_quoteFree (Number_toString _ ++ _)); [done|].
    unfold quoteFree. rewrite elem_of_app. intros [H|H].
    - by apply quoteFree_Number_toString in H.
    - revert H. apply (bool_decide_unpack _). vm_compute. exact I. }
  unfold readRow. rewrite Hrow. apply readFields_join; [done|].
  apply join_quoted_length.
Qed.

Lemma csvRow_reads_back_example :
  let entry :=
    entryAt 1743465600000 sad ([QUOTE] ++ lit "so-so" ++ [QUOTE] ++ lit ", she said")
      (rain None) in
  quoteFree (date entry) /\
  quoteFree (condition (weather entry)) /\
  quoteFree (or_default (location (weather entry)) (lit "Unknown")) /\
  readRow (csvRow entry) = Some (columns entry).
Proof.
  intros entry.
  assert (H1 : quoteFree (date entry))
    by (apply (bool_decide_unpack _); vm_compute; exact I).
  assert (H2 : quoteFree (condition (weather entry)))
    by (apply (bool_decide_unpack _); vm_compute; exact I).
  assert (H3 : quoteFree (or_default (location (weather entry)) (lit "Unknown")))
    by (apply (bool_decide_unpack _); vm_compute; exact I).
  split; [exact H1|]. split; [exact H2|]. split; [exact H3|].
  exact (csvRow_reads_back entry H1 H2 H3).
Defined.

(* ================================================================= *)
(** * The settings page *)

(** X10.  The export of the settings page never runs into the error of
    the empty export: when the listing is empty it shows the toast for
    no entries and hands no file to the browser; otherwise it hands over
    the export of the listing, newest entry first, in the selected format
    and names the file in its toast.  In both cases the page is left
    with [isExporting] off. *)
Theorem handleExport_outcome (JSON_stringify_pretty : list JournalEntry -> jsstring)
    (currentDate : jsstring) (page : SettingsPage.PageState) (store : localStorage) :
  match Array_sort newestFirst (persisted store) with
  | [] =>
      SettingsPage.handleExport JSON_stringify_pretty currentDate page store
      = (SettingsPage.setIsExporting false page, SettingsPage.NoEntriesToExport, None)
  | entry :: entries =>
      exists file,
        SettingsPage.handleExport JSON_stringify_pretty currentDate page store
        = (SettingsPage.setIsExporting false page,
           SettingsPage.ExportSuccessful (fileName file), Some file) /\
        exportJournalEntries JSON_stringify_pretty currentDate (entry :: entries)
          (SettingsPage.exportFormat page) = Return file /\
        dataStr file =
          match SettingsPage.exportFormat page with
          | csv => headerLine ++ [LF] ++ join [LF] (map csvRow (entry :: entries))
          | json => JSON_stringify_pretty (entry :: entries)
          end
  end.
Proof.
  unfold SettingsPage.handleExport. rewrite getJournalEntries_persisted.
  destruct (Array_sort newestFirst (persisted store)) as [|entry entries]; [done|].
  cbn [length Nat.eqb].
  destruct (SettingsPage.exportFormat page) eqn:Hformat.
  - rewrite exportJournalEntries_csv. eexists. by repeat split.
  - eexists. by repeat split.
Qed.

(** X11.  Clearing the data takes two steps: from a page without a
    pending confirmation the first call only asks for confirmation and
    leaves the store as it is; the second call removes the stored
    entries, so that the listing is empty afterwards, sets the entry
    count to 0 and withdraws the confirmation.  Cancelling in between
    leaves the store untouched. *)
Theorem handleClearData_two_steps (page : SettingsPage.PageState) (store : localStorage) :
  let first := SettingsPage.handleClearData (SettingsPage.cancelDelete page) store in
  let second := SettingsPage.handleClearData (fst (fst first)) (snd (fst first)) in
  first
  = ({| SettingsPage.exportFormat := SettingsPage.exportFormat page;
        SettingsPage.isExporting := SettingsPage.isExporting page;
        SettingsPage.showConfirmDelete := true;
        SettingsPage.entryCount := SettingsPage.entryCount page |}, store, None) /\
  second
  = ({| SettingsPage.exportFormat := SettingsPage.exportFormat page;
        SettingsPage.isExporting := SettingsPage.isExporting page;
        SettingsPage.showConfirmDelete := false;
        SettingsPage.entryCount := 0 |}, None, Some SettingsPage.DataCleared) /\
  getJournalEntries (snd (fst second)) = Return [] /\
  snd (fst (SettingsPage.handleClearData
              (SettingsPage.cancelDelete (fst (fst first))) (snd (fst first))))
  = store.
Proof. by repeat split. Qed.

(* ================================================================= *)
(** * The theme *)

(** X12.  After a toggle the theme is light or dark, whatever it was
    before, the stored preference is that theme, and the document has the
    class dark exactly when the theme is dark; from then on a toggle
    changes the theme and two toggles restore the whole state. *)
Theorem toggleTheme_consistent (st : ThemeProvider.ThemeState) :
  let st1 := ThemeProvider.toggleTheme st in
  (ThemeProvider.theme st1 = lit "light" \/ ThemeProvider.theme st1 = lit "dark") /\
  ThemeProvider.storedTheme st1 = Some (ThemeProvider.theme st1) /\
  ThemeProvider.darkClass st1 = bool_decide (ThemeProvider.theme st1 = lit "dark") /\
  ThemeProvider.theme (ThemeProvider.toggleTheme st1) <> ThemeProvider.theme st1 /\
  ThemeProvider.toggleTheme (ThemeProvider.toggleTheme st1) = st1.
Proof.
  unfold ThemeProvider.toggleTheme, ThemeProvider.applyTheme.
  cbn [ThemeProvider.theme ThemeProvider.storedTheme ThemeProvider.darkClass].
  case_bool_decide; cbn; repeat split; auto; discriminate.
Qed.

(** X13.  Round trip of the preference: a page load that finds the
    preference written by a toggle comes up in the state the toggle left,
    whatever the system prefers; a page load that finds no preference, or
    an empty one, follows the system preference. *)
Theorem theme_survives_reload (st : ThemeProvider.ThemeState) (prefersDark : bool) :
  ThemeProvider.initialise prefersDark
    (ThemeProvider.freshLoad
       (ThemeProvider.storedTheme (ThemeProvider.toggleTheme st)))
  = ThemeProvider.toggleTheme st /\
  ThemeProvider.theme
    (ThemeProvider.initialise prefersDark (ThemeProvider.freshLoad None))
  = (if prefersDark then lit "dark" else lit "light") /\
  ThemeProvider.theme
    (ThemeProvider.initialise prefersDark (ThemeProvider.freshLoad (Some [])))
  = (if prefersDark then lit "dark" else lit "light").
Proof.
  unfold ThemeProvider.toggleTheme, ThemeProvider.initialise,
    ThemeProvider.applyTheme, ThemeProvider.freshLoad.
  cbn [ThemeProvider.theme ThemeProvider.storedTheme ThemeProvider.darkClass].
  repeat split; case_bool_decide; by destruct prefersDark.
Qed.

(* ================================================================= *)
(** * The note input *)

(** X14.  The note input rejects and does not truncate: after any
    sequence of reported values, starting from the empty note, the note is
    the last reported value within the limit (the empty note if there is
    none), and so never longer than the limit. *)
Theorem handleChange_keeps_last_valid (maxLength : nat) (edits : list jsstring) :
  fold_left (NoteInput.handleChange maxLength) edits []
  = default [] (last (filter (fun e => length e <= maxLength) edits)) /\
  length (fold_left (NoteInput.handleChange maxLength) edits []) <= maxLength.
Proof.
  assert (Hlast : fold_left (NoteInput.handleChange maxLength) edits []
            = default [] (last (filter (fun e => length e <= maxLength) edits))).
  { induction edits as [|e edits IH] using rev_ind; [done|].
    rewrite fold_left_app, filter_app. cbn [fold_left].
    unfold NoteInput.handleChange at 1.
    destruct (Nat.leb_spec (length e) maxLength) as [Hle|Hgt].
    - rewrite filter_cons_True by done. by rewrite filter_nil, last_snoc.
    - rewrite filter_cons_False by lia. by rewrite filter_nil, app_nil_r. }
  split; [done|]. rewrite Hlast.
  destruct (last _) as [e|] eqn:He; cbn; [|lia].
  apply last_Some_elem_of, list_elem_of_filter in He. tauto.
Qed.

(* ================================================================= *)
(** * Further properties of the save handler *)








(** X15.  The save handler is all or nothing.  Either it reports the
    entry as saved: a mood was selected, the weather was loaded and the
    storage accepted the write, the store holds one entry more, and the
    form is reset (no mood, empty note) with date and weather kept; or it
    leaves the page and the store exactly as they were and asks for a
    mood, or, when a mood is selected but no weather is loaded, reports
    that the weather is not available, or, when the storage refuses the
    write, reports the error of the save. *)
Theorem handleSaveEntry_all_or_nothing (dateFormat_long : Z -> jsstring)
    (refused : option JsError) (now : Z)
    (page : HomePage.PageState) (store : localStorage) :
  let '(page', store', toast) :=
    StorageQuota.handleSaveEntry dateFormat_long refused now page store in
  (toast = HomePage.EntrySaved /\
   refused = None /\
   is_Some (HomePage.selectedMood page) /\
   is_Some (HomePage.weather page) /\
   length (persisted store') = S (length (persisted store)) /\
   HomePage.selectedMood page' = None /\
   HomePage.note page' = [] /\
   HomePage.selectedDate page' = HomePage.selectedDate page /\
   HomePage.weather page' = HomePage.weather page) \/
  (page' = page /\ store' = store /\
   ((HomePage.selectedMood page = None /\ toast = HomePage.PleaseSelectMood) \/
    (is_Some (HomePage.selectedMood page) /\ HomePage.weather page = None /\
     toast = HomePage.WeatherNotAvailable) \/
    (is_Some (HomePage.selectedMood page) /\ is_Some (HomePage.weather page) /\
     is_Some refused /\ toast = HomePage.ErrorSaving))).
Proof.
  unfold StorageQuota.handleSaveEntry.
  destruct (HomePage.selectedMood page) as [m|] eqn:Hmood; [|right; auto].
  destruct (HomePage.weather page) as [w|] eqn:Hweather; [|right; eauto 10].
  destruct refused as [error|].
  - rewrite StorageQuota_saveJournalEntry_refused. right. eauto 10.
  - rewrite StorageQuota_saveJournalEntry_accepted.
    match goal with
    | |- context [saveJournalEntry _ _ ?data _] =>
        destruct (saveJournalEntry_result dateFormat_long now data store)
          as (e & -> & _)
    end.
    left. cbn [persisted length HomePage.selectedMood HomePage.note
               HomePage.selectedDate HomePage.weather].
    rewrite Array_sort_length. by repeat split; eauto.
Qed.





(* ================================================================= *)
(** * Further properties of the weather correlation *)

Lemma sumNat_map_add {A : Type} (f g : A -> nat) (l : list A) :
  sumNat (map (fun a => f a + g a) l) = sumNat (map f l) + sumNat (map g l).
Proof. unfold sumNat. induction l; cbn; lia. Qed.

Lemma indicator_absent (c : jsstring) (keys : list jsstring) :
  c ∉ keys -> sumNat (map (fun k => if decide (c = k) then 1 else 0) keys) = 0.
Proof.
  unfold sumNat. induction keys as [|k keys IH]; [done|].
  rewrite not_elem_of_cons. intros [Hne Hkeys]. cbn.
  rewrite decide_False by done. by rewrite IH.
Qed.

Lemma indicator_present (c : jsstring) (keys : list jsstring) :
  NoDup keys -> c ∈ keys ->
  sumNat (map (fun k => if decide (c = k) then 1 else 0) keys) = 1.
Proof.
  induction 1 as [|k keys Hfresh Hnodup IH]; [by intros ?%elem_of_nil|].
  intros Hin. change (sumNat (map ?f (k :: keys)))
    with (f k + sumNat (map f keys)). cbn beta.
  case_decide as Hk.
  - subst k. by rewrite indicator_absent.
  - rewrite IH; [done|]. by apply elem_of_cons in Hin as [?|?].
Qed.

Lemma withCondition_cons (c : jsstring) (entry : JournalEntry)
    (entries : list JournalEntry) :
  length (withCondition c (entry :: entries))
  = (if decide (condition (weather entry) = c) then 1 else 0)
    + length (withCondition c entries).
Proof. unfold withCondition. rewrite filter_cons. by case_decide. Qed.

(** Groups with distinct keys that cover the conditions of the entries
    have as many members as there are entries. *)
Lemma group_sizes (entries : list JournalEntry) (keys : list jsstring) :
  NoDup keys ->
  (forall entry, entry ∈ entries -> condition (weather entry) ∈ keys) ->
  sumNat (map (fun c => length (withCondition c entries)) keys) = length entries.
Proof.
  intros Hnodup. induction entries as [|entry entries IH]; intros Hall.
  - clear. unfold sumNat. by induction keys.
  - erewrite map_ext by (intros c; apply withCondition_cons).
    rewrite sumNat_map_add, IH.
    + rewrite indicator_present; [done|done|]. apply Hall, list_elem_of_here.
    + intros e He. by apply Hall, list_elem_of_further.
Qed.

Lemma analyse_fields (group : jsstring * list JournalEntry) :
  WeatherCorrelation.condition (WeatherCorrelation.analyse group) = group.1 /\
  WeatherCorrelation.totalEntries (WeatherCorrelation.analyse group)
  = length group.2.
Proof.
  destruct group as [c es]. unfold WeatherCorrelation.analyse.
  by destruct (WeatherCorrelation.dominant _).
Qed.

Lemma byTotalEntries_flip (a b : WeatherCorrelation.Correlation) :
  WeatherCorrelation.byTotalEntries a b = Gt ->
  WeatherCorrelation.byTotalEntries b a = Lt.
Proof. unfold WeatherCorrelation.byTotalEntries. rewrite signZ_Gt, signZ_Lt. lia. Qed.

Lemma byTotalEntries_trans (a b c : WeatherCorrelation.Correlation) :
  WeatherCorrelation.byTotalEntries a b <> Gt ->
  WeatherCorrelation.byTotalEntries b c <> Gt ->
  WeatherCorrelation.byTotalEntries a c <> Gt.
Proof. unfold WeatherCorrelation.byTotalEntries. rewrite !signZ_not_Gt. lia. Qed.

(** A group of the grouping loop has a member among the entries. *)
Lemma wellGrouped_key (entries : list JournalEntry)
    (groups : WeatherCorrelation.Groups) (c : jsstring) :
  wellGrouped entries groups -> c ∈ groups.*1 ->
  exists entry, entry ∈ entries /\ condition (weather entry) = c.
Proof.
  intros (_ & Hgroups & _) Hc.
  apply list_elem_of_fmap in Hc as ([c' es] & -> & Hin). cbn.
  destruct (Hgroups _ _ Hin) as [Hes Hsome].
  destruct es as [|entry es]; [done|].
  assert (Hentry : entry ∈ withCondition c' entries)
    by (rewrite <- Hes; apply list_elem_of_here).
  apply list_elem_of_filter in Hentry as [Hcond Hentry]. by exists entry.
Qed.

(** The grouping loop returns when no condition names a property of
    [Object.prototype]; otherwise it throws a [TypeError]. *)
Lemma groupByCondition_outcome (entries : list JournalEntry) :
  match WeatherCorrelation.groupByCondition entries with
  | Return _ =>
      Forall (fun entry =>
                condition (weather entry) ∉ WeatherCorrelation.Object_prototype_keys)
        entries
  | Throw e =>
      e = TypeError /\
      Exists (fun entry =>
                condition (weather entry) ∈ WeatherCorrelation.Object_prototype_keys)
        entries
  end.
Proof.
  induction entries as [|entry entries IH] using rev_ind; [by cbn|].
  rewrite groupByCondition_snoc.
  destruct (WeatherCorrelation.groupByCondition entries) as [groups|e] eqn:Hgroups;
    cbn [bind].
  - apply groupByCondition_wellGrouped in Hgroups.
    unfold WeatherCorrelation.addEntry.
    destruct (WeatherCorrelation.hasOwn _ _) eqn:Hown.
    + apply Forall_app. split; [done|]. apply Forall_singleton.
      apply hasOwn_keys in Hown.
      destruct (wellGrouped_key _ _ _ Hgroups Hown) as (entry' & Hin & <-).
      rewrite Forall_forall in IH. by apply IH.
    + case_bool_decide as Hkey.
      * split; [done|]. apply Exists_app. right. by apply Exists_cons_hd.
      * apply Forall_app. split; [done|]. by apply Forall_singleton.
  - destruct IH as [-> IH]. split; [done|]. apply Exists_app. by left.
Qed.

(** X18.  The rows of a weather correlation partition the entries by
    condition: no condition has two rows, every entry's condition has a
    row, no row is empty, the sizes of the rows add up to the number of
    entries, and the rows come in descending order of size. *)
Theorem correlation_partitions_entries (entries : list JournalEntry)
    (rows : list WeatherCorrelation.Correlation) :
  WeatherCorrelation.correlation entries = Return rows ->
  NoDup (WeatherCorrelation.condition <$> rows) /\
  (forall entry, entry ∈ entries ->
     condition (weather entry) ∈ WeatherCorrelation.condition <$> rows) /\
  Forall (fun row => 0 < WeatherCorrelation.totalEntries row) rows /\
  sumNat (WeatherCorrelation.totalEntries <$> rows) = length entries /\
  StronglySorted
    (fun a b => WeatherCorrelation.totalEntries b <= WeatherCorrelation.totalEntries a)
    rows.
Proof.
  unfold WeatherCorrelation.correlation.
  destruct (WeatherCorrelation.groupByCondition entries) as [groups|] eqn:Hgroups;
    [|done].
  apply groupByCondition_wellGrouped in Hgroups as (Hnodup & Hgroups & Hall).
  intros [= <-].
  assert (Hconditions :
    WeatherCorrelation.condition <$>
      Array_sort WeatherCorrelation.byTotalEntries
        (map WeatherCorrelation.analyse (WeatherCorrelation.Object_entries groups))
    ≡ₚ groups.*1).
  { rewrite Array_sort_Permutation, Object_entries_Permutation.
    rewrite <- list_fmap_compose. apply Permutation_refl', list_fmap_ext.
    intros _ g _. apply analyse_fields. }
  split; [by rewrite Hconditions|].
  split; [intros entry Hentry; rewrite Hconditions; by apply Hall|].
  split; [|split].
  - apply Forall_forall. intros row.
    rewrite Array_sort_Permutation, list_elem_of_fmap.
    intros ([c es] & -> & Hin). rewrite Object_entries_Permutation in Hin.
    destruct (Hgroups _ _ Hin) as [_ Hsome].
    destruct (analyse_fields (c, es)) as [_ ->]. cbn.
    destruct es; [done|cbn; lia].
  - rewrite <- (group_sizes entries groups.*1 Hnodup Hall).
    apply sumNat_Permutation.
    rewrite Array_sort_Permutation, Object_entries_Permutation.
    rewrite <- !list_fmap_compose. apply Permutation_refl', list_fmap_ext.
    intros _ [c es] Hin%list_elem_of_lookup_2. unfold compose.
    destruct (analyse_fields (c, es)) as [_ ->]. cbn [fst snd].
    by destruct (Hgroups _ _ Hin) as [-> _].
  - apply StronglySorted_weaken
      with (R := stableOrder WeatherCorrelation.byTotalEntries (fun _ _ => True)).
    + intros a b Hab. apply stableOrder_not_Gt in Hab.
      unfold WeatherCorrelation.byTotalEntries in Hab.
      rewrite signZ_not_Gt in Hab. lia.
    + apply Array_sort_StronglySorted.
      * apply byTotalEntries_flip.
      * apply byTotalEntries_trans.
      * apply StronglySorted_True.
Qed.

Lemma correlation_partitions_entries_example :
  let rows :=
    [ {| WeatherCorrelation.condition := lit "Rain";
         WeatherCorrelation.totalEntries := 3;
         WeatherCorrelation.dominantMood := sad;
         WeatherCorrelation.dominantPercentage := 67%float;
         WeatherCorrelation.averageTemp := 18%float |};
      {| WeatherCorrelation.condition := lit "Clear";
         WeatherCorrelation.totalEntries := 1;
         WeatherCorrelation.dominantMood := happy;
         WeatherCorrelation.dominantPercentage := 100%float;
         WeatherCorrelation.averageTemp := 22%float |} ] in
  WeatherCorrelation.correlation mixedDays = Return rows /\
  NoDup (WeatherCorrelation.condition <$> rows) /\
  (forall entry, entry ∈ mixedDays ->
     condition (weather entry) ∈ WeatherCorrelation.condition <$> rows) /\
  Forall (fun row => 0 < WeatherCorrelation.totalEntries row) rows /\
  sumNat (WeatherCorrelation.totalEntries <$> rows) = length mixedDays /\
  StronglySorted
    (fun a b => WeatherCorrelation.totalEntries b <= WeatherCorrelation.totalEntries a)
    rows.
Proof.
  intros rows.
  assert (Hrows : WeatherCorrelation.correlation mixedDays = Return rows)
    by (vm_compute; reflexivity).
  split; [exact Hrows|].
  exact (correlation_partitions_entries mixedDays rows Hrows).
Defined.

(** X19.  The weather correlation fails exactly on a condition that
    names a property that the empty object inherits (constructor,
    toString, valueOf, ...): it throws a [TypeError] when some entry has
    such a condition, whatever the other entries are, it returns rows when
    no entry has one, and it throws nothing else. *)
Theorem correlation_throws_iff (entries : list JournalEntry) :
  (WeatherCorrelation.correlation entries = Throw TypeError <->
   Exists (fun entry =>
             condition (weather entry) ∈ WeatherCorrelation.Object_prototype_keys)
     entries) /\
  ((exists rows, WeatherCorrelation.correlation entries = Return rows) <->
   Forall (fun entry =>
             condition (weather entry) ∉ WeatherCorrelation.Object_prototype_keys)
     entries) /\
  (forall e, WeatherCorrelation.correlation entries = Throw e -> e = TypeError).
Proof.
  assert (Houtcome := groupByCondition_outcome entries).
  assert (Hexclusive :
    Forall (fun entry =>
              condition (weather entry) ∉ WeatherCorrelation.Object_prototype_keys)
      entries ->
    Exists (fun entry =>
              condition (weather entry) ∈ WeatherCorrelation.Object_prototype_keys)
      entries -> False).
  { rewrite Forall_forall, Exists_exists.
    intros Hall (entry & Hin & Hkey). by apply (Hall entry). }
  unfold WeatherCorrelation.correlation.
  destruct (WeatherCorrelation.groupByCondition entries) as [groups|e];
    cbn [bind].
  - split; [|split].
    + split; [done|]. intros Hsome. by destruct Hexclusive.
    + split; [done|]. intros _. by eexists.
    + done.
  - destruct Houtcome as [-> Hsome]. split; [|split].
    + by split.
    + split; [by intros [rows ?]|]. intros Hall. by destruct Hexclusive.
    + by intros e [= <-].
Qed.

Example correlation_inherited_key_example :
  WeatherCorrelation.correlation
    [ entryAt 1743465600000 happy (lit "fine") (rain None);
      entryAt 1743552000000 sad (lit "odd")
        {| temp := 20; condition := lit "constructor"; icon := lit "01d";
           location := None |} ]
  = Throw TypeError.
Proof. vm_compute. reflexivity. Qed.

(* ================================================================= *)
(** * The filters of the entries page *)

Lemma filter_all {A : Type} (P : A -> Prop) `{!forall a, Decision (P a)}
    (l : list A) :
  Forall P l -> filter P l = l.
Proof.
  induction 1 as [|a l Ha Hl IH]; [done|].
  by rewrite filter_cons_True, IH.
Qed.

Lemma Forall_filter_same {A : Type} (P : A -> Prop) `{!forall a, Decision (P a)}
    (l : list A) :
  Forall P (filter P l).
Proof. apply Forall_forall. by intros a [Ha _]%list_elem_of_filter. Qed.

Lemma startsWith_spec (s q : jsstring) :
  EntriesPage.startsWith s q = true <-> exists post, s = q ++ post.
Proof.
  revert s. induction q as [|c q IH]; intros [|d s]; cbn.
  - split; [by exists []|done].
  - split; [by exists (d :: s)|done].
  - split; [done|]. by intros [post ?].
  - rewrite andb_true_iff, N.eqb_eq, IH. split.
    + intros [-> [post ->]]. by exists post.
    + intros [post [= -> ->]]. split; [done|]. by exists post.
Qed.

(** [includes] holds of the texts that contain the query. *)
Lemma includes_spec (s q : jsstring) :
  EntriesPage.includes s q = true <-> exists pre post, s = pre ++ q ++ post.
Proof.
  induction s as [|d s IH]; cbn [EntriesPage.includes];
    rewrite orb_true_iff, startsWith_spec.
  - split.
    + intros [[post ->]|?]; [|done]. by exists [], post.
    + intros (pre & post & Heq). left. exists post.
      destruct pre; [done|discriminate].
  - rewrite IH. split.
    + intros [[post ->]|(pre & post & ->)]; [by exists [], post|].
      by exists (d :: pre), post.
    + intros ([|d' pre] & post & Heq).
      * left. by exists post.
      * right. injection Heq as -> ->. by exists pre, post.
Qed.

Lemma matches_spec (toLowerCase : jsstring -> jsstring) (query : jsstring)
    (entry : JournalEntry) :
  EntriesPage.matches toLowerCase query entry = true <->
  exists pre post,
    toLowerCase (note entry) = pre ++ query ++ post \/
    toLowerCase (date entry) = pre ++ query ++ post.
Proof.
  unfold EntriesPage.matches. rewrite orb_true_iff, !includes_spec. split.
  - intros [(pre & post & H)|(pre & post & H)]; exists pre, post; auto.
  - intros (pre & post & [H|H]); [left|right]; by exists pre, post.
Qed.

(** X20.  What the entries page lists.  The listed entries are entries
    of the journal in their order; an entry is listed exactly when it has
    the selected mood, if one is selected, and, if the search text is not
    blank, the lower-cased search text (which is not trimmed) occurs in
    its lower-cased note or in its lower-cased date; filtering the listed
    entries again changes nothing; with the filters cleared every entry
    is listed. *)
Theorem applyFilters_selects (toLowerCase : jsstring -> jsstring)
    (entries : list JournalEntry) (searchQuery : jsstring)
    (moodFilter : option Mood) :
  let result := EntriesPage.applyFilters toLowerCase entries searchQuery moodFilter in
  result `sublist_of` entries /\
  (forall entry,
     entry ∈ result <->
     entry ∈ entries /\
     (forall m, moodFilter = Some m -> mood entry = m) /\
     (trim searchQuery <> [] ->
      exists pre post,
        toLowerCase (note entry) = pre ++ toLowerCase searchQuery ++ post \/
        toLowerCase (date entry) = pre ++ toLowerCase searchQuery ++ post)) /\
  EntriesPage.applyFilters toLowerCase result searchQuery moodFilter = result /\
  EntriesPage.applyFilters toLowerCase entries [] None = entries.
Proof.
  cbv zeta. setoid_rewrite <- (matches_spec toLowerCase).
  unfold EntriesPage.applyFilters.
  destruct moodFilter as [m|], (trim searchQuery) as [|c t] eqn:Hquery;
    cbn zeta; (split; [|split; [|split; [|done]]]).
  - apply sublist_filter.
  - intros entry. rewrite list_elem_of_filter. split.
    + intros [Hmood Hin]. split; [done|]. split; [by intros ? [= <-]|done].
    + intros (Hin & Hmood & _). split; [by apply Hmood|done].
  - apply filter_all, Forall_filter_same.
  - etrans; apply sublist_filter.
  - intros entry. rewrite !list_elem_of_filter. split.
    + intros (Hmatch & Hmood & Hin). split; [done|].
      split; [by intros ? [= <-]|done].
    + intros (Hin & Hmood & Hmatch). split; [by apply Hmatch|].
      split; [by apply Hmood|done].
  - rewrite (filter_all (fun entry => mood entry = m)); [apply filter_all|].
    + apply Forall_filter_same.
    + apply Forall_forall. intros entry [_ Hin]%list_elem_of_filter.
      by apply list_elem_of_filter in Hin as [? _].
  - done.
  - intros entry. split; [|by intros [? _]].
    intros Hin. split; [done|]. by split.
  - done.
  - apply sublist_filter.
  - intros entry. rewrite list_elem_of_filter. split.
    + intros [Hmatch Hin]. by repeat split.
    + intros (Hin & _ & Hmatch). split; [by apply Hmatch|done].
  - apply filter_all, Forall_filter_same.
Qed.

(* ================================================================= *)
(** * The trends page *)

(** The store after the loop of [addSampleEntries] holds the former
    entries and one new entry for each sample, with the time value of the
    sample's date as timestamp. *)
Lemma saveAll_entries (dateFormat_long : Z -> jsstring) (stamp : nat -> Z)
    (samples : list EntryData) (i : nat) (store : localStorage) :
  exists news,
    persisted (snd (saveAll dateFormat_long stamp i samples store))
    ≡ₚ news ++ persisted store /\
    timestamp <$> news = ed_date <$> samples.
Proof.
  revert i store. induction samples as [|sample samples IH]; intros i store.
  - by exists [].
  - cbn [saveAll].
    destruct (saveJournalEntry_result dateFormat_long (stamp i) sample store)
      as (e & -> & _ & _ & _ & _ & _ & Hstamp).
    destruct (IH (S i) (Some (Json (e :: Array_sort newestFirst (persisted store)))))
      as (news & Hperm & Hstamps).
    exists (e :: news). split.
    + rewrite Hperm. cbn [persisted]. rewrite Array_sort_Permutation.
      by rewrite <- Permutation_middle.
    + cbn. by rewrite Hstamp, Hstamps.
Qed.

(** X21.  Sample entries on the trends page.  The handler ends with
    [addingSamples] off and the range kept.  When the storage accepts the
    six writes and the page is viewed within two days after the samples
    were added (the three clock readings in order), the handler reports
    success, the page lists six entries more than the store held, and of
    the six samples the week view shows three (today, 2 and 5 days ago),
    the month view five (also 10 and 20 days ago) and the view of all
    time six, next to the former entries of the range.  When a write is
    refused, the handler reports the failure and the page lists what it
    listed before, although the store holds the samples saved before that
    write. *)
Theorem trends_after_samples (dateFormat_long : Z -> jsstring)
    (now today view : Z) (refused : nat -> option JsError) (stamp : nat -> Z)
    (page : TrendsPage.PageState) (store : localStorage) :
  (now <= today <= view)%Z ->
  (view <= now + 2 * msInDay)%Z ->
  let '(page1, store', toast) :=
    TrendsPage.handleAddSampleEntries dateFormat_long now today refused stamp
      page store in
  let page' := TrendsPage.refilter view page1 in
  TrendsPage.addingSamples page' = false /\
  TrendsPage.timeRange page' = TrendsPage.timeRange page /\
  ((forall i, i < 6 -> refused i = None) ->
   toast = TrendsPage.SampleEntriesAdded /\
   TrendsPage.entries page' ≡ₚ persisted store' /\
   length (TrendsPage.entries page') = 6 + length (persisted store) /\
   length (TrendsPage.filteredEntries page')
   = match TrendsPage.timeRange page with
     | week => 3
     | month => 5
     | all => 6
     end
     + length (filterEntriesByTimeRange view (persisted store)
                 (TrendsPage.timeRange page))) /\
  (forall k error,
     k < 6 -> (forall i, i < k -> refused i = None) -> refused k = Some error ->
     toast = TrendsPage.FailedToAddSampleEntries /\
     TrendsPage.entries page' = TrendsPage.entries page /\
     length (persisted store') = k + length (persisted store)).
Proof.
  intros Hclock Hview.
  unfold TrendsPage.handleAddSampleEntries, StorageQuota.addSampleEntries.
  destruct (StorageQuota.saveAll _ _ _ _ _ _) as [[[]|error0] store'] eqn:Hsave;
    rewrite ?getJournalEntries_persisted; cbv zeta;
    (split; [done|]; split; [done|]; split).
  - intros Hok. rewrite StorageQuota_saveAll_accepted in Hsave by exact Hok.
    destruct (saveAll_result dateFormat_long stamp (sampleEntries now today) 0 store)
      as (_ & Hlen & _).
    destruct (saveAll_entries dateFormat_long stamp (sampleEntries now today) 0 store)
      as (news & Hperm & Hstamps).
    rewrite Hsave in Hlen, Hperm. cbn [fst snd] in *.
    cbn [TrendsPage.refilter TrendsPage.setAddingSamples TrendsPage.entries
         TrendsPage.filteredEntries TrendsPage.timeRange TrendsPage.addingSamples].
    split; [done|].
    split; [apply Array_sort_Permutation|].
    split; [by rewrite Array_sort_length|].
    assert (Hcount : forall cutoff : Z,
      length (filter (fun entry => (cutoff <= timestamp entry)%Z)
                (Array_sort newestFirst (persisted store')))
      = length (filter (fun t => (cutoff <= t)%Z) (ed_date <$> sampleEntries now today))
        + length (filter (fun entry => (cutoff <= timestamp entry)%Z)
                    (persisted store))).
    { intros cutoff. rewrite Array_sort_Permutation, Hperm, filter_app, length_app.
      f_equal. rewrite <- Hstamps. clear.
      induction news as [|e news IH]; [done|].
      rewrite fmap_cons, !filter_cons. cbn beta.
      case_decide; cbn [length]; by rewrite IH. }
    unfold msInDay in *.
    destruct (TrendsPage.timeRange page); cbn [filterEntriesByTimeRange].
    + rewrite Hcount. f_equal. unfold sampleEntries, msInDay.
      cbn [fmap list_fmap ed_date].
      rewrite !filter_cons, filter_nil. repeat case_decide; try lia; done.
    + rewrite Hcount. f_equal. unfold sampleEntries, msInDay.
      cbn [fmap list_fmap ed_date].
      rewrite !filter_cons, filter_nil. repeat case_decide; try lia; done.
    + rewrite Array_sort_length. exact Hlen.
  - intros k error Hk Hok Herror.
    rewrite (StorageQuota_saveAll_refused _ _ _ _ 0 k error) in Hsave by done.
    discriminate Hsave.
  - intros Hok. rewrite StorageQuota_saveAll_accepted in Hsave by exact Hok.
    destruct (saveAll_result dateFormat_long stamp (sampleEntries now today) 0 store)
      as (Hfst & _).
    rewrite Hsave in Hfst. discriminate Hfst.
  - intros k error Hk Hok Herror.
    rewrite (StorageQuota_saveAll_refused _ _ _ _ 0 k error) in Hsave by done.
    injection Hsave as _ <-.
    split; [done|]. split; [done|].
    destruct (saveAll_result dateFormat_long stamp
                (take k (sampleEntries now today)) 0 store) as (_ & -> & _).
    rewrite length_take. cbn [sampleEntries length]. lia.
Qed.

Lemma trends_after_samples_example :
  (1745000000000 <= 1745000000001 <= 1745000060000)%Z /\
  (1745000060000 <= 1745000000000 + 2 * msInDay)%Z /\
  let '(page1, store', toast) :=
    TrendsPage.handleAddSampleEntries aprilFirst 1745000000000 1745000000001
      (fun i => if (i <? 6)%nat then None else Some (Error (lit "QuotaExceededError")))
      (fun i => 1745000000002 + Z.of_nat i)%Z TrendsPage.initial None in
  let page' := TrendsPage.refilter 1745000060000 page1 in
  TrendsPage.addingSamples page' = false /\
  TrendsPage.timeRange page' = TrendsPage.timeRange TrendsPage.initial /\
  ((forall i, i < 6 ->
      (if (i <? 6)%nat then None else Some (Error (lit "QuotaExceededError")))
      = None) ->
   toast = TrendsPage.SampleEntriesAdded /\
   TrendsPage.entries page' ≡ₚ persisted store' /\
   length (TrendsPage.entries page') = 6 + length (persisted None) /\
   length (TrendsPage.filteredEntries page')
   = match TrendsPage.timeRange TrendsPage.initial with
     | week => 3
     | month => 5
     | all => 6
     end
     + length (filterEntriesByTimeRange 1745000060000 (persisted None)
                 (TrendsPage.timeRange TrendsPage.initial))) /\
  (forall k error,
     k < 6 ->
     (forall i, i < k ->
        (if (i <? 6)%nat then None else Some (Error (lit "QuotaExceededError")))
        = None) ->
     (if (k <? 6)%nat then None else Some (Error (lit "QuotaExceededError")))
     = Some error ->
     toast = TrendsPage.FailedToAddSampleEntries /\
     TrendsPage.entries page' = TrendsPage.entries TrendsPage.initial /\
     length (persisted store') = k + length (persisted None)).
Proof.
  assert (H1 : (1745000000000 <= 1745000000001 <= 1745000060000)%Z) by lia.
  assert (H2 : (1745000060000 <= 1745000000000 + 2 * msInDay)%Z)
    by (unfold msInDay; lia).
  split; [exact H1|]. split; [exact H2|].
  exact (trends_after_samples aprilFirst 1745000000000 1745000000001 1745000060000
           (fun i => if (i <? 6)%nat then None
                     else Some (Error (lit "QuotaExceededError")))
           (fun i => 1745000000002 + Z.of_nat i)%Z TrendsPage.initial None H1 H2).
Defined.

(* ================================================================= *)
(** * The calendar of the home page *)

Lemma getDatesWithEntries_snoc (dateKey : jsstring -> option jsstring)
    (entries : list JournalEntry) (entry : JournalEntry) :
  CalendarView.getDatesWithEntries dateKey (entries ++ [entry])
  = match dateKey (date entry) with
    | Some key => <[key := mood entry]> (CalendarView.getDatesWithEntries dateKey entries)
    | None => CalendarView.getDatesWithEntries dateKey entries
    end.
Proof. unfold CalendarView.getDatesWithEntries. by rewrite fold_left_app. Qed.

(** The mood under a day is the mood of the last entry of the list that
    falls on the day. *)
Lemma getDatesWithEntries_last (dateKey : jsstring -> option jsstring)
    (entries : list JournalEntry) (key : jsstring) :
  CalendarView.getDatesWithEntries dateKey entries !! key
  = mood <$> last (filter (fun entry => dateKey (date entry) = Some key) entries).
Proof.
  induction entries as [|entry entries IH] using rev_ind; [done|].
  rewrite getDatesWithEntries_snoc, filter_app, filter_cons, filter_nil.
  destruct (dateKey (date entry)) as [key'|] eqn:Hkey.
  - destruct (decide (key' = key)) as [->|Hne].
    + rewrite lookup_insert_eq, decide_True by done. by rewrite last_snoc.
    + rewrite lookup_insert_ne, decide_False by congruence.
      by rewrite app_nil_r.
  - rewrite decide_False by done. by rewrite app_nil_r.
Qed.

Lemma getDatesWithEntries_cons (dateKey : jsstring -> option jsstring)
    (entry : JournalEntry) (entries : list JournalEntry) (key : jsstring) :
  CalendarView.getDatesWithEntries dateKey (entry :: entries) !! key
  = match CalendarView.getDatesWithEntries dateKey entries !! key with
    | Some shown => Some shown
    | None =>
        if decide (dateKey (date entry) = Some key) then Some (mood entry)
        else None
    end.
Proof.
  rewrite !getDatesWithEntries_last, filter_cons.
  destruct (filter _ entries) as [|e rest] eqn:Hrest.
  - by case_decide.
  - case_decide; rewrite ?last_cons_cons;
      (destruct (last (e :: rest)) eqn:Hlast; [done|by apply last_None in Hlast]).
Qed.

(** X22.  The dot that the calendar puts under a day has the mood of the
    last entry of the list that falls on the day; a day has a dot exactly
    when an entry of the list falls on it.  So an entry put in front of
    the list changes the dot of its day only when no other entry falls on
    that day. *)
Theorem calendar_dot_is_last_entry (dateKey : jsstring -> option jsstring)
    (entries : list JournalEntry) (key : jsstring) :
  CalendarView.getDatesWithEntries dateKey entries !! key
  = mood <$> last (filter (fun entry => dateKey (date entry) = Some key) entries) /\
  (is_Some (CalendarView.getDatesWithEntries dateKey entries !! key) <->
   exists entry, entry ∈ entries /\ dateKey (date entry) = Some key) /\
  (forall first,
     CalendarView.getDatesWithEntries dateKey (first :: entries) !! key
     = match CalendarView.getDatesWithEntries dateKey entries !! key with
       | Some shown => Some shown
       | None =>
           if decide (dateKey (date first) = Some key) then Some (mood first)
           else None
       end).
Proof.
  split; [apply getDatesWithEntries_last|].
  split; [|intros first; apply getDatesWithEntries_cons].
  rewrite getDatesWithEntries_last, fmap_is_Some. split.
  - intros [entry Hlast]. exists entry.
    apply last_Some_elem_of, list_elem_of_filter in Hlast. tauto.
  - intros (entry & Hin & Hkey).
    destruct (last _) as [e|] eqn:Hlast; [done|].
    apply last_None in Hlast.
    assert (Hentry : entry ∈ filter (fun e => dateKey (date e) = Some key) entries)
      by by apply list_elem_of_filter.
    rewrite Hlast in Hentry. by apply elem_of_nil in Hentry.
Qed.


